(** * Aviation manual ingestion: chunking, normalisation and metadata rules

    A shallow embedding of the two scripts of the repository,
    [aviation_manual_processor.py] (module [Processor]) and
    [ingest_aviation_manuals.py] (module [Ingest]), together with the
    small part of the Python runtime they rely on ([str.split],
    [str.strip], [str.join], list slicing, and the fragment of [re] used
    by the patterns of the scripts). *)

From Stdlib Require Import String Ascii DecimalString.
From Stdlib Require Import ZArith NArith Bool Lia List.
Import ListNotations.

Open Scope Z_scope.

(** ** Python strings

    A [str] is a sequence of Unicode code points. *)

Definition str := list N.

(** A literal of the source, written as a Rocq string (ASCII only). *)
Definition py (s : string) : str := map N_of_ascii (list_ascii_of_string s).

(** [len(x)] *)
Definition len {A : Type} (l : list A) : Z := Z.of_nat (length l).

(** The part of the Unicode character database that lies above ASCII and
    that [\d] and [\b] consult: it belongs to the interpreter, not to the
    repository, and is taken as a parameter.  Below U+0080 the tables are
    fixed by the definitions that follow. *)
Class UnicodeTables := {
  decimal_hi : N -> bool;   (* str.isdecimal on code points >= 128 *)
  alnum_hi : N -> bool      (* str.isalnum on code points >= 128 *)
}.

(** [str.isspace] on one code point; also what [\s], [str.split()] and
    [str.strip()] use. *)
Definition isspace (c : N) : bool :=
  ((9 <=? c) && (c <=? 13) || (28 <=? c) && (c <=? 32)
   || (c =? 133) || (c =? 160) || (c =? 5760)
   || (8192 <=? c) && (c <=? 8202)
   || (c =? 8232) || (c =? 8233) || (c =? 8239) || (c =? 8287)
   || (c =? 12288))%N.

Definition isdecimal `{UnicodeTables} (c : N) : bool :=
  if (c <? 128)%N then ((48 <=? c) && (c <=? 57))%N else decimal_hi c.

Definition isalnum `{UnicodeTables} (c : N) : bool :=
  if (c <? 128)%N
  then ((48 <=? c) && (c <=? 57) || (65 <=? c) && (c <=? 90)
        || (97 <=? c) && (c <=? 122))%N
  else alnum_hi c.

(** ** str.split(), str.join, str.strip(), list slices *)

(** [text.split()]: the maximal runs of non-whitespace characters. *)
Fixpoint split (s : str) : list str :=
  match s with
  | [] => []
  | c :: s' =>
      if isspace c then split s'
      else match s' with
           | [] => [[c]]
           | d :: _ =>
               if isspace d then [c] :: split s'
               else match split s' with
                    | w :: ws => (c :: w) :: ws
                    | [] => [[c]]
                    end
           end
  end.

(** [sep.join(ws)] *)
Fixpoint join (sep : str) (ws : list str) : str :=
  match ws with
  | [] => []
  | [w] => w
  | w :: ws' => w ++ sep ++ join sep ws'
  end.

Fixpoint lstrip (s : str) : str :=
  match s with
  | [] => []
  | c :: s' => if isspace c then lstrip s' else s
  end.

Definition rstrip (s : str) : str := rev (lstrip (rev s)).

(** [s.strip()] *)
Definition strip (s : str) : str := rstrip (lstrip s).

(** An index of a slice, as Python normalises it: a negative index counts
    from the end, and the result is clamped to [0, n]. *)
Definition slice_index (n i : Z) : Z :=
  if i <? 0 then Z.max (i + n) 0 else Z.min i n.

(** [l[start:stop]] *)
Definition py_slice {A : Type} (l : list A) (start stop : Z) : list A :=
  let a := slice_index (len l) start in
  let b := slice_index (len l) stop in
  firstn (Z.to_nat (b - a)) (skipn (Z.to_nat a) l).

(** ** The fragment of [re] used by the scripts

    Character sets, sequencing, ordered alternation (an optional group
    [(?:r)?] is [Alt r Eps]), greedy repetition of a character set and
    the word boundary [\b].  Bounded repetitions are unfolded: [x+] is
    [x x*], [x{2}] is [x x], [x{2,}] is [x x x*]. *)

Inductive cset_item :=
| CLit (c : N)          (* a literal character *)
| CRange (lo hi : N)    (* lo-hi *)
| CSpace                (* \s *)
| CDigit.               (* \d *)

Definition cset := list cset_item.

Inductive regex :=
| Eps
| Chr (cs : cset)
| Seq (r1 r2 : regex)
| Alt (r1 r2 : regex)
| Star (cs : cset)
| WordB.

(** Lower-casing as the matcher applies it under IGNORECASE, on the code
    points whose lower case is an ASCII letter (the upper-case ASCII
    letters, U+0130 and U+212A); every other code point is kept, which
    is enough to decide membership in the character sets of the scripts
    (they hold ASCII characters only). *)
Definition sre_lower (x : N) : N :=
  (if (65 <=? x) && (x <=? 90) then x + 32
   else if x =? 304 then 105
   else if x =? 8490 then 107
   else x)%N.

(** The extra code points that the pattern compiler adds next to a
    lower-case letter under IGNORECASE: dotless i for i, long s for s. *)
Definition sre_fixes (lo : N) : list N :=
  (if lo =? 105 then [305] else if lo =? 115 then [383] else [])%N.

Definition N_range (lo hi : N) : list N :=
  map (fun k => (lo + N.of_nat k)%N) (seq 0 (N.to_nat (hi + 1 - lo))).

Definition lit_ignore (c y : N) : bool :=
  let lo := sre_lower c in
  (y =? lo)%N || existsb (N.eqb y) (sre_fixes lo).

Definition in_item `{UnicodeTables} (ignorecase : bool) (x : N) (it : cset_item) : bool :=
  if ignorecase then
    let y := sre_lower x in
    match it with
    | CLit c => lit_ignore c y
    | CRange lo hi => existsb (fun c => lit_ignore c y) (N_range lo hi)
    | CSpace => isspace y
    | CDigit => isdecimal y
    end
  else
    match it with
    | CLit c => (x =? c)%N
    | CRange lo hi => ((lo <=? x) && (x <=? hi))%N
    | CSpace => isspace x
    | CDigit => isdecimal x
    end.

Definition in_cset `{UnicodeTables} (ignorecase : bool) (cs : cset) (x : N) : bool :=
  existsb (in_item ignorecase x) cs.

(** [\w] *)
Definition is_word `{UnicodeTables} (c : option N) : bool :=
  match c with
  | Some x => isalnum x || (x =? 95)%N
  | None => false
  end.

(** A position of the subject: the character before it, if any, and the
    rest of the text. *)
Section Matcher.
Context `{UnicodeTables}.
Variable ignorecase : bool.

(** Greedy [cs*] followed by the continuation [k]: the longest run
    first, then shorter ones. *)
Fixpoint star (cs : cset) (k : option N -> str -> option str)
         (prev : option N) (s : str) : option str :=
  match s with
  | c :: s' =>
      if in_cset ignorecase cs c then
        match star cs k (Some c) s' with
        | Some r => Some r
        | None => k prev s
        end
      else k prev s
  | [] => k prev []
  end.

(** Backtracking matcher in continuation-passing style; the result is
    the text left after the match. *)
Fixpoint rmatch (r : regex) (k : option N -> str -> option str)
         (prev : option N) (s : str) : option str :=
  match r with
  | Eps => k prev s
  | Chr cs =>
      match s with
      | c :: s' => if in_cset ignorecase cs c then k (Some c) s' else None
      | [] => None
      end
  | Seq r1 r2 => rmatch r1 (rmatch r2 k) prev s
  | Alt r1 r2 =>
      match rmatch r1 k prev s with
      | Some x => Some x
      | None => rmatch r2 k prev s
      end
  | Star cs => star cs k prev s
  | WordB =>
      if xorb (is_word prev) (is_word (hd_error s)) then k prev s else None
  end.

(** A match of [r] that starts exactly at this position. *)
Definition match_here (r : regex) (prev : option N) (s : str) : option str :=
  rmatch r (fun _ rest => Some rest) prev s.

(** The matched text, [m.group(0)], given what the match left. *)
Definition matched (s rest : str) : str :=
  firstn (length s - length rest) s.

(** Scan for the leftmost position where [r] matches; the result is the
    start offset and [group(0)]. *)
Fixpoint search_from (r : regex) (pos : nat) (prev : option N) (s : str)
  : option (nat * str) :=
  match match_here r prev s with
  | Some rest => Some (pos, matched s rest)
  | None =>
      match s with
      | [] => None
      | c :: s' => search_from r (S pos) (Some c) s'
      end
  end.

(** [re.search(r, text)] *)
Definition re_search (r : regex) (text : str) : option (nat * str) :=
  search_from r 0%nat None text.

(** [re.sub(r, repl, text)] for a pattern that matches no empty string:
    every leftmost non-overlapping match is replaced by [repl].  The
    fuel counts the positions visited; [S (length text)] is enough. *)
Fixpoint sub_from (fuel : nat) (r : regex) (repl : str)
         (prev : option N) (s : str) : str :=
  match fuel with
  | O => s
  | S fuel' =>
      match s with
      | [] => []
      | c :: s' =>
          match match_here r prev s with
          | Some rest =>
              if (length rest <? length s)%nat
              then repl ++ sub_from fuel' r repl
                             (Some (last (matched s rest) c)) rest
              else c :: sub_from fuel' r repl (Some c) s'
          | None => c :: sub_from fuel' r repl (Some c) s'
          end
      end
  end.

Definition re_sub (r : regex) (repl : str) (text : str) : str :=
  sub_from (S (length text)) r repl None text.
End Matcher.

(** Pattern builders. *)
Definition lit (s : string) : regex :=
  fold_right (fun c r => Seq (Chr [CLit c]) r) Eps (py s).
Definition plus (cs : cset) : regex := Seq (Chr cs) (Star cs).
Fixpoint seqs (rs : list regex) : regex :=
  match rs with
  | [] => Eps
  | r :: rs' => Seq r (seqs rs')
  end.
Definition opt (r : regex) : regex := Alt r Eps.

(** Character codes used in the patterns. *)
Definition ch (s : string) : N :=
  match s with
  | String c _ => N_of_ascii c
  | EmptyString => 0%N
  end.

(** The pattern \s+ *)
Definition re_spaces : regex := plus [CSpace].

(** Whitespace normalisation of a page, common to both scripts:
    [re.sub(r"\s+", " ", text).strip()]. *)
Definition normalize `{UnicodeTables} (text : str) : str :=
  strip (re_sub false re_spaces (py " ") text).

(** ** The collaborators and the world the pipelines act on

    The embedding model and [uuid4] are external: [encode chunk] stands
    for [model.encode(chunk, normalize_embeddings=True).tolist()] and
    [uuid4 n] for the string of the [n]-th identifier drawn. *)
Class Collaborators := {
  vector : Type;
  encode : str -> vector;
  uuid4 : nat -> str
}.

(** What a Python function hands back to its caller. *)
Inductive pyval :=
| PyNone
| PyInt (z : Z)
| PyPair (a b : pyval).

(** A call made while a page is processed: the callee and the number of
    the page whose text (or chunk) it receives. *)
Inductive call := Call (callee : string) (page : Z).

(** Standard output, the state of the search engine, the number of
    identifiers drawn so far, and the log of calls. *)
Record world (D : Type) := World {
  stdout : list str;
  index_exists : bool;
  bulk_calls : list (list D);
  uuid_count : nat;
  calls : list call
}.
Arguments World {D}.
Arguments stdout {D}.
Arguments index_exists {D}.
Arguments bulk_calls {D}.
Arguments uuid_count {D}.
Arguments calls {D}.

(** Computations over the world; [None] is a run that exhausted the fuel
    of a loop. *)
Definition M (D A : Type) : Type := world D -> option (A * world D).

Definition ret {D A : Type} (a : A) : M D A := fun w => Some (a, w).

Definition bind {D A B : Type} (c : M D A) (k : A -> M D B) : M D B :=
  fun w => match c w with
           | Some (a, w') => k a w'
           | None => None
           end.

Notation "x <- c ;; k" := (bind c (fun x => k))
  (at level 61, c at next level, right associativity).
Notation "c ;;; k" := (bind c (fun _ => k))
  (at level 61, right associativity).

(** [print(line)] *)
Definition print {D : Type} (line : str) : M D unit :=
  fun w => Some (tt, World (stdout w ++ [line]) (index_exists w)
                           (bulk_calls w) (uuid_count w) (calls w)).

(** Record a call in the log. *)
Definition logged {D : Type} (callee : string) (page : Z) : M D unit :=
  fun w => Some (tt, World (stdout w) (index_exists w) (bulk_calls w)
                           (uuid_count w) (calls w ++ [Call callee page])).

(** [str(uuid4())] *)
Definition fresh_id {D : Type} `{Collaborators} : M D str :=
  fun w => Some (uuid4 (uuid_count w),
                 World (stdout w) (index_exists w) (bulk_calls w)
                       (S (uuid_count w)) (calls w)).

(** [helpers.bulk(es, actions)] *)
Definition bulk {D : Type} (actions : list D) : M D unit :=
  fun w => Some (tt, World (stdout w) (index_exists w)
                           (bulk_calls w ++ [actions]) (uuid_count w) (calls w)).

(** A computation that may run out of fuel, lifted to the world. *)
Definition lift {D A : Type} (o : option A) : M D A :=
  fun w => match o with
           | Some a => Some (a, w)
           | None => None
           end.

(** A length formatted inside an f-string. *)
Definition dec (n : nat) : str := py (NilEmpty.string_of_uint (Nat.to_uint n)).

(** ** aviation_manual_processor.py *)
Module Processor.
Section WithRuntime.
Context `{UnicodeTables} `{Collaborators}.
(** [self.index_name] *)
Variable index_name : str.

(** The dictionary of a page: its number and its text. *)
Record page := Page { page_no : Z; text : str }.

(** The loop of [parse_pdf] over [enumerate(reader.pages, 1)]; an entry
    of [raw] is what [page.extract_text()] returned. *)
Fixpoint parse_pages (i : Z) (raw : list (option str)) : list page :=
  match raw with
  | [] => []
  | t :: raw' =>
      match t with
      | Some ((_ :: _) as text) =>
          Page i (normalize text) :: parse_pages (i + 1) raw'
      | _ => parse_pages (i + 1) raw'
      end
  end.

Definition parse_pdf (raw : list (option str)) : list page :=
  parse_pages 1 raw.

(** The [while] loop of [chunk_text]; [start] and [chunks] are its
    variables, and one unit of fuel is spent per test of the loop
    condition. *)
Fixpoint chunk_loop (fuel : nat) (words : list str) (max_words overlap : Z)
         (start : Z) (chunks : list str) : option (list str) :=
  match fuel with
  | O => None
  | S fuel' =>
      if start <? len words then
        let end_ := Z.min (start + max_words) (len words) in
        let chunk := join (py " ") (py_slice words start end_) in
        let chunks := chunks ++ [chunk] in
        if end_ >=? len words then Some chunks
        else chunk_loop fuel' words max_words overlap (end_ - overlap) chunks
      else Some chunks
  end.

Definition chunk_text (fuel : nat) (text : str) (max_words overlap : Z)
  : option (list str) :=
  match chunk_loop fuel (split text) max_words overlap 0 [] with
  | Some chunks => Some (filter (fun c => 50 <? len (split c)) chunks)
  | None => None
  end.

Record metadata := Metadata {
  section : str;
  ata_chapter : str;
  part_number : str
}.

(** The section pattern, its parts separated by blanks here:
    SECTION \s+ \d+ [\.\d]* \s* [:\-] \s* [A-Z] [A-Za-z0-9\-\s]+ *)
Definition section_re : regex :=
  seqs [lit "SECTION"; plus [CSpace]; plus [CDigit];
        Star [CLit (ch "."); CDigit]; Star [CSpace];
        Chr [CLit (ch ":"); CLit (ch "-")]; Star [CSpace];
        Chr [CRange (ch "A") (ch "Z")];
        plus [CRange (ch "A") (ch "Z"); CRange (ch "a") (ch "z");
              CRange (ch "0") (ch "9"); CLit (ch "-"); CSpace]].

(** The chapter pattern, its parts separated by blanks here:
    ATA \s* (?: Chapter \s* )? \d{2} *)
Definition ata_re : regex :=
  seqs [lit "ATA"; Star [CSpace];
        opt (seqs [lit "Chapter"; Star [CSpace]]);
        Chr [CDigit]; Chr [CDigit]].

(** The part-number pattern, its parts separated by blanks here:
    \b ( [A-Z]{2,} - [A-Z0-9]{2,} [A-Z0-9\-]* ) \b ; its group 1 spans the
    whole match, the two [\b] being of width zero. *)
Definition part_re : regex :=
  let upper := [CRange (ch "A") (ch "Z")] in
  let upnum := [CRange (ch "A") (ch "Z"); CRange (ch "0") (ch "9")] in
  seqs [WordB; Chr upper; Chr upper; Star upper; Chr [CLit (ch "-")];
        Chr upnum; Chr upnum; Star upnum;
        Star [CRange (ch "A") (ch "Z"); CRange (ch "0") (ch "9");
              CLit (ch "-")];
        WordB].

Definition extract_metadata (text : str) : metadata :=
  let section_match := re_search true section_re text in
  let section :=
    match section_match with Some (_, g) => strip g | None => [] end in
  let ata_match := re_search true ata_re text in
  let ata_chapter :=
    match ata_match with Some (_, g) => strip g | None => [] end in
  let part_match := re_search false part_re text in
  let part_number :=
    match part_match with Some (_, g) => g | None => [] end in
  Metadata section ata_chapter part_number.

(** An action of the bulk request: index, identifier and source. *)
Record document := Document {
  d_index : str;
  d_id : str;
  content : str;
  d_page : Z;
  d_section : str;
  d_ata_chapter : str;
  d_part_number : str;
  manual_id : str;
  embedding : vector
}.

(** [for chunk in chunks] *)
Fixpoint chunks_loop (page_data : page) (meta : metadata) (manual : str)
         (chunks : list str) (documents : list document)
  : M document (list document) :=
  match chunks with
  | [] => ret documents
  | chunk :: chunks' =>
      logged "encode" (page_no page_data) ;;;
      let embedding := encode chunk in
      id <- fresh_id ;;
      let doc := Document index_name id chunk (page_no page_data)
                          (section meta) (ata_chapter meta)
                          (part_number meta) manual embedding in
      chunks_loop page_data meta manual chunks' (documents ++ [doc])
  end.

(** [for page_data in pages] *)
Fixpoint pages_loop (manual : str) (pages : list page)
         (documents : list document) : M document (list document) :=
  match pages with
  | [] => ret documents
  | page_data :: pages' =>
      logged "extract_metadata" (page_no page_data) ;;;
      let meta := extract_metadata (text page_data) in
      logged "chunk_text" (page_no page_data) ;;;
      chunks <- lift (chunk_text (S (length (split (text page_data))))
                                 (text page_data) 800 120) ;;
      documents <- chunks_loop page_data meta manual chunks documents ;;
      pages_loop manual pages' documents
  end.

Definition check_mark : str := [10003%N].

Definition process_manual (pdf_path manual : str) (raw : list (option str))
  : M document pyval :=
  print (py "Processing: " ++ pdf_path) ;;;
  let pages := parse_pdf raw in
  print (check_mark ++ py " Extracted " ++ dec (length pages) ++ py " pages") ;;;
  documents <- pages_loop manual pages [] ;;
  bulk documents ;;;
  print (check_mark ++ py " Indexed " ++ dec (length documents) ++ py " chunks") ;;;
  ret PyNone.
End WithRuntime.
End Processor.

(** ** ingest_aviation_manuals.py *)
Module Ingest.
Section WithRuntime.
Context `{UnicodeTables} `{Collaborators}.

Definition INDEX_NAME : str := py "aviation_manuals".

(** The dictionary of a page: its number and its text. *)
Record page := Page { page_no : Z; text : str }.

(** The loop of [extract_text_by_page] over
    [enumerate(reader.pages, start=1)]. *)
Fixpoint extract_pages (i : Z) (raw : list (option str)) : list page :=
  match raw with
  | [] => []
  | t :: raw' =>
      let text := match t with Some x => x | None => [] end in
      let text := normalize text in
      match text with
      | _ :: _ => Page i text :: extract_pages (i + 1) raw'
      | [] => extract_pages (i + 1) raw'
      end
  end.

Definition extract_text_by_page (raw : list (option str)) : list page :=
  extract_pages 1 raw.

(** The [while] loop of [chunk_text]. *)
Fixpoint chunk_loop (fuel : nat) (words : list str) (max_tokens overlap : Z)
         (start : Z) (chunks : list str) : option (list str) :=
  match fuel with
  | O => None
  | S fuel' =>
      if start <? len words then
        let end_ := Z.min (start + max_tokens) (len words) in
        let chunk := join (py " ") (py_slice words start end_) in
        let chunks := chunks ++ [chunk] in
        if end_ >=? len words then Some chunks
        else chunk_loop fuel' words max_tokens overlap (end_ - overlap) chunks
      else Some chunks
  end.

Definition chunk_text (fuel : nat) (text : str) (max_tokens overlap : Z)
  : option (list str) :=
  match chunk_loop fuel (split text) max_tokens overlap 0 [] with
  | Some chunks => Some (filter (fun c => 50 <? len (split c)) chunks)
  | None => None
  end.

(** The tail shared by the two section patterns:
    \s+ \d+ [\.\d]* \s* [:\-] \s* [A-Z] [A-Za-z0-9\-\s]+ *)
Definition section_tail : list regex :=
  [plus [CSpace]; plus [CDigit];
   Star [CLit (ch "."); CDigit]; Star [CSpace];
   Chr [CLit (ch ":"); CLit (ch "-")]; Star [CSpace];
   Chr [CRange (ch "A") (ch "Z")];
   plus [CRange (ch "A") (ch "Z"); CRange (ch "a") (ch "z");
         CRange (ch "0") (ch "9"); CLit (ch "-"); CSpace]].

(** [for pattern in patterns]: the first pattern that is found decides. *)
Fixpoint first_search (patterns : list regex) (text : str) : str :=
  match patterns with
  | [] => []
  | pattern :: patterns' =>
      match re_search true pattern text with
      | Some (_, g) => strip g
      | None => first_search patterns' text
      end
  end.

Definition section_patterns : list regex :=
  [seqs (lit "SECTION" :: section_tail); seqs (lit "Section" :: section_tail)].

Definition infer_section (text : str) : str :=
  first_search section_patterns text.

(** ATA \s* Chapter \s* \d{2} *)
Definition ata_chapter_re : regex :=
  seqs [lit "ATA"; Star [CSpace]; lit "Chapter"; Star [CSpace];
        Chr [CDigit]; Chr [CDigit]].

(** ATA \s* \d{2} *)
Definition ata_bare_re : regex :=
  seqs [lit "ATA"; Star [CSpace]; Chr [CDigit]; Chr [CDigit]].

Definition chapter_patterns : list regex := [ata_chapter_re; ata_bare_re].

Definition infer_chapter (text : str) : str :=
  first_search chapter_patterns text.

(** \b ( [A-Z]{2,} - [A-Z0-9]{2,} [A-Z0-9\-]* ) \b *)
Definition part_re : regex :=
  let upper := [CRange (ch "A") (ch "Z")] in
  let upnum := [CRange (ch "A") (ch "Z"); CRange (ch "0") (ch "9")] in
  seqs [WordB; Chr upper; Chr upper; Star upper; Chr [CLit (ch "-")];
        Chr upnum; Chr upnum; Star upnum;
        Star [CRange (ch "A") (ch "Z"); CRange (ch "0") (ch "9");
              CLit (ch "-")];
        WordB].

Definition infer_part_number (text : str) : str :=
  match re_search false part_re text with
  | Some (_, g) => g
  | None => []
  end.

(** An action of the bulk request: index, identifier and source. *)
Record document := Document {
  d_index : str;
  d_id : str;
  content : str;
  d_section : str;
  d_chapter : str;
  d_part_number : str;
  manual_id : str;
  d_page : Z;
  embedding : vector
}.

Definition create_index : M document unit :=
  fun w =>
    if index_exists w
    then print (py "Index '" ++ INDEX_NAME ++ py "' already exists") w
    else print (py "Created index '" ++ INDEX_NAME
                   ++ py "' with hybrid search mappings")
               (World (stdout w) true (bulk_calls w) (uuid_count w) (calls w)).

(** [for chunk in chunks]; [chunk_count] grows with [actions]. *)
Fixpoint chunks_loop (p : page) (section chapter part_number manual : str)
         (chunks : list str) (actions : list document) (chunk_count : Z)
  : M document (list document * Z) :=
  match chunks with
  | [] => ret (actions, chunk_count)
  | chunk :: chunks' =>
      logged "encode" (page_no p) ;;;
      let vec := encode chunk in
      id <- fresh_id ;;
      let doc := Document INDEX_NAME id chunk section chapter part_number
                          manual (page_no p) vec in
      chunks_loop p section chapter part_number manual chunks'
                  (actions ++ [doc]) (chunk_count + 1)
  end.

(** [for p in pages] *)
Fixpoint pages_loop (manual : str) (pages : list page)
         (actions : list document) (chunk_count : Z)
  : M document (list document * Z) :=
  match pages with
  | [] => ret (actions, chunk_count)
  | p :: pages' =>
      logged "infer_section" (page_no p) ;;;
      let section := infer_section (text p) in
      logged "infer_chapter" (page_no p) ;;;
      let chapter := infer_chapter (text p) in
      logged "infer_part_number" (page_no p) ;;;
      let part_number := infer_part_number (text p) in
      logged "chunk_text" (page_no p) ;;;
      chunks <- lift (chunk_text (S (length (split (text p))))
                                 (text p) 800 120) ;;
      r <- chunks_loop p section chapter part_number manual chunks
                       actions chunk_count ;;
      pages_loop manual pages' (fst r) (snd r)
  end.

(** The first characters of the last line printed, as the file has
    them: U+00E2, U+0153, U+201C. *)
Definition check_mark : str := [226%N; 339%N; 8220%N].

(** [f"{chunk_count}"] *)
Definition decZ (z : Z) : str := dec (Z.to_nat z).

Definition index_pdf (pdf_path manual : str) (raw : list (option str))
  : M document pyval :=
  create_index ;;;
  print (py "Processing PDF: " ++ pdf_path) ;;;
  let pages := extract_text_by_page raw in
  print (py "Extracted " ++ dec (length pages) ++ py " pages") ;;;
  r <- pages_loop manual pages [] 0 ;;
  bulk (fst r) ;;;
  print (check_mark ++ py " Indexed " ++ decZ (snd r) ++ py " chunks from "
           ++ dec (length pages) ++ py " pages") ;;;
  ret PyNone.
End WithRuntime.
End Ingest.

(** Tables with nothing above ASCII, and collaborators that compute, for
    running the definitions on ASCII text. *)
Definition ascii_tables : UnicodeTables :=
  {| decimal_hi := fun _ => false; alnum_hi := fun _ => false |}.

Definition toy_collaborators : Collaborators :=
  {| vector := nat; encode := fun chunk => length chunk; uuid4 := dec |}.

(** ** Notions used to state the properties *)

(** A word: not empty, and free of whitespace. *)
Definition is_token (w : str) : Prop :=
  w <> [] /\ forallb (fun c => negb (isspace c)) w = true.

(** The word ranges [(start, end)] that the loop of [chunk_text] visits
    on a sequence of [L] words. *)
Fixpoint chunk_ranges (fuel : nat) (L max_words overlap start : Z)
  : option (list (Z * Z)) :=
  match fuel with
  | O => None
  | S fuel' =>
      if start <? L then
        let end_ := Z.min (start + max_words) L in
        if end_ >=? L then Some [(start, end_)]
        else match chunk_ranges fuel' L max_words overlap (end_ - overlap) with
             | Some rs => Some ((start, end_) :: rs)
             | None => None
             end
      else Some []
  end.

(** The chunk that a range stands for. *)
Definition render (words : list str) (r : Z * Z) : str :=
  join (py " ") (py_slice words (fst r) (snd r)).

(** The number of word indices that two ranges share. *)
Definition range_overlap (r1 r2 : Z * Z) : Z :=
  Z.max 0 (Z.min (snd r1) (snd r2) - Z.max (fst r1) (fst r2)).

(** [ceil(a / b)] for [b <> 0]. *)
Definition ceil_div (a b : Z) : Z := - ((- a) / b).

(** Every maximal run of whitespace replaced by one space, in one pass. *)
Fixpoint collapse (s : str) : str :=
  match s with
  | [] => []
  | c :: s' =>
      if isspace c then
        match s' with
        | d :: _ => if isspace d then collapse s' else 32%N :: collapse s'
        | [] => [32%N]
        end
      else c :: collapse s'
  end.

(** Every whitespace character is a space, and is not followed by
    another whitespace character. *)
Fixpoint tidy (s : str) : Prop :=
  match s with
  | [] => True
  | c :: s' =>
      (isspace c = true ->
       c = 32%N /\ match s' with
                   | d :: _ => isspace d = false
                   | [] => True
                   end)
      /\ tidy s'
  end.

(** The calls made for a page before its chunks are encoded. *)
Definition processor_header (n : Z) : list call :=
  [Call "extract_metadata" n; Call "chunk_text" n].

Definition ingest_header (n : Z) : list call :=
  [Call "infer_section" n; Call "infer_chapter" n;
   Call "infer_part_number" n; Call "chunk_text" n].

(** The calls logged for one page by [Processor.process_manual], given
    the number of chunks the page yields. *)
Definition processor_page_calls (n : Z) (chunks : nat) : list call :=
  processor_header n ++ repeat (Call "encode" n) chunks.

(** The calls logged for one page by [Ingest.index_pdf]. *)
Definition ingest_page_calls (n : Z) (chunks : nat) : list call :=
  ingest_header n ++ repeat (Call "encode" n) chunks.

Definition call_eqb (a b : call) : bool :=
  match a, b with
  | Call f n, Call g m => String.eqb f g && (n =? m)
  end.

(** How many times [c] occurs in a log. *)
Definition count_call (c : call) (log : list call) : nat :=
  length (filter (call_eqb c) log).

(** The shape of the list of ranges visited from cursor [s]: each range
    starts at the cursor and ends at [min(s + M, L)]; the list ends with
    a range that reaches [L], or when the next cursor, the end of the
    range minus the overlap, is not below [L]. *)
Fixpoint ranges_from (L M O s : Z) (rs : list (Z * Z)) : Prop :=
  match rs with
  | [] => L <= s
  | r :: rs' =>
      s < L /\ fst r = s /\ snd r = Z.min (s + M) L /\
      ((L <= snd r /\ rs' = []) \/
       (snd r < L /\ ranges_from L M O (snd r - O) rs'))
  end.

(** A text of 51 words, used where a chunk must survive the filter. *)
Definition words51 : str :=
  py "a1 a2 a3 a4 a5 a6 a7 a8 a9 a10 b1 b2 b3 b4 b5 b6 b7 b8 b9 b10 c1 c2 c3 c4 c5 c6 c7 c8 c9 c10 d1 d2 d3 d4 d5 d6 d7 d8 d9 d10 e1 e2 e3 e4 e5 e6 e7 e8 e9 e10 f1".

(** The same text without its last word: 50 words. *)
Definition words50 : str :=
  py "a1 a2 a3 a4 a5 a6 a7 a8 a9 a10 b1 b2 b3 b4 b5 b6 b7 b8 b9 b10 c1 c2 c3 c4 c5 c6 c7 c8 c9 c10 d1 d2 d3 d4 d5 d6 d7 d8 d9 d10 e1 e2 e3 e4 e5 e6 e7 e8 e9 e10".

(** Does the string hold two whitespace characters in a row? *)
Fixpoint adjacent_spaces (s : str) : bool :=
  match s with
  | c :: s' =>
      match s' with
      | d :: _ => (isspace c && isspace d) || adjacent_spaces s'
      | [] => false
      end
  | [] => false
  end.

(** The string is empty or starts with a character that is not
    whitespace. *)
Definition starts_clean (s : str) : Prop :=
  match s with
  | c :: _ => isspace c = false
  | [] => True
  end.

(** The texts of the examples. *)
Definition section_text : str := py "SECTION 3.2: Engine Systems details...".
Definition two_chapters_text : str := py "See ATA 21 first, then ATA Chapter 49.".

(** The chunks of a page, as the pipelines ask for them: the default
    configuration, and fuel above the number of words. *)
Definition default_chunks (text : str) : list str :=
  match Processor.chunk_text (S (length (split text))) text 800 120 with
  | Some chunks => chunks
  | None => []
  end.

(** [w'] is [w] with [extra] appended to the log of calls; nothing was
    printed and nothing sent to the search engine. *)
Definition logs {D : Type} (w w' : world D) (extra : list call) : Prop :=
  stdout w' = stdout w /\ index_exists w' = index_exists w /\
  bulk_calls w' = bulk_calls w /\ calls w' = calls w ++ extra.

(** A document carries the metadata of page [p], computed from the text
    of the page, and the identifier of the manual. *)
Definition processor_meta_of `{UnicodeTables} `{Collaborators}
  (manual : str) (p : Processor.page) (d : Processor.document) : Prop :=
  Processor.d_page d = Processor.page_no p /\
  Processor.d_section d
    = Processor.section (Processor.extract_metadata (Processor.text p)) /\
  Processor.d_ata_chapter d
    = Processor.ata_chapter (Processor.extract_metadata (Processor.text p)) /\
  Processor.d_part_number d
    = Processor.part_number (Processor.extract_metadata (Processor.text p)) /\
  Processor.manual_id d = manual.

Definition ingest_meta_of `{UnicodeTables} `{Collaborators}
  (manual : str) (p : Ingest.page) (d : Ingest.document) : Prop :=
  Ingest.d_page d = Ingest.page_no p /\
  Ingest.d_section d = Ingest.infer_section (Ingest.text p) /\
  Ingest.d_chapter d = Ingest.infer_chapter (Ingest.text p) /\
  Ingest.d_part_number d = Ingest.infer_part_number (Ingest.text p) /\
  Ingest.manual_id d = manual.

(** The calls logged for a page: those of its header, then one call of
    the embedding model per chunk. *)
Definition page_log {P : Type} (pn : P -> Z) (k : P -> nat)
  (header : Z -> list call) (p : P) : list call :=
  header (pn p) ++ repeat (Call "encode" (pn p)) (k p).

(** The log of a whole run: page after page. *)
Definition processor_calls (pages : list Processor.page) : list call :=
  flat_map (fun p => processor_page_calls (Processor.page_no p)
                       (length (default_chunks (Processor.text p)))) pages.

Definition ingest_calls (pages : list Ingest.page) : list call :=
  flat_map (fun p => ingest_page_calls (Ingest.page_no p)
                       (length (default_chunks (Ingest.text p)))) pages.

(** A reader of three pages of which the second extracts to nothing. *)
Definition three_pages : list (option str) :=
  [Some words51; Some []; Some words51].

(** A world in which nothing has happened yet. *)
Definition fresh_world {D : Type} : world D := World [] false [] 0%nat [].

(** Does the string start with a whitespace character? *)
Definition starts_space (s : str) : bool :=
  match s with
  | c :: _ => isspace c
  | [] => false
  end.

(** [x] occurs in [t] as a contiguous substring. *)
Definition infix (x t : str) : Prop := exists pre post, t = pre ++ x ++ post.

(** The character sets that occur in a pattern. *)
Fixpoint regex_csets (r : regex) : list cset :=
  match r with
  | Eps | WordB => []
  | Chr cs | Star cs => [cs]
  | Seq r1 r2 | Alt r1 r2 => regex_csets r1 ++ regex_csets r2
  end.

(** The least number of characters a match of a pattern takes. *)
Fixpoint min_len (r : regex) : nat :=
  match r with
  | Eps | WordB | Star _ => 0
  | Chr _ => 1
  | Seq r1 r2 => min_len r1 + min_len r2
  | Alt r1 r2 => Nat.min (min_len r1) (min_len r2)
  end.

(** An upper-case ASCII letter, an ASCII digit or a hyphen. *)
Definition part_char (c : N) : Prop :=
  (65 <= c <= 90 \/ 48 <= c <= 57 \/ c = 45)%N.

(** The chunks of the pages of a run with the number of their page, in
    the order of the pages and, within a page, of the chunks. *)
Definition processor_page_chunks (pages : list Processor.page) : list (Z * str) :=
  flat_map (fun p => map (pair (Processor.page_no p))
                         (default_chunks (Processor.text p))) pages.

Definition ingest_page_chunks (pages : list Ingest.page) : list (Z * str) :=
  flat_map (fun p => map (pair (Ingest.page_no p))
                         (default_chunks (Ingest.text p))) pages.

(** Collaborators whose identifiers are pairwise distinct. *)
Definition distinct_ids : Collaborators :=
  {| vector := nat; encode := fun chunk => length chunk;
     uuid4 := fun n => [N.of_nat n] |}.

(** Two documents of a script that differ at most in their identifier. *)
Definition ingest_same_but_id `{Collaborators} (a b : Ingest.document) : Prop :=
  Ingest.d_index a = Ingest.d_index b /\
  Ingest.content a = Ingest.content b /\
  Ingest.d_page a = Ingest.d_page b /\
  Ingest.d_section a = Ingest.d_section b /\
  Ingest.d_chapter a = Ingest.d_chapter b /\
  Ingest.d_part_number a = Ingest.d_part_number b /\
  Ingest.manual_id a = Ingest.manual_id b /\
  Ingest.embedding a = Ingest.embedding b.

Definition processor_same_but_id `{Collaborators} (a b : Processor.document) : Prop :=
  Processor.d_index a = Processor.d_index b /\
  Processor.content a = Processor.content b /\
  Processor.d_page a = Processor.d_page b /\
  Processor.d_section a = Processor.d_section b /\
  Processor.d_ata_chapter a = Processor.d_ata_chapter b /\
  Processor.d_part_number a = Processor.d_part_number b /\
  Processor.manual_id a = Processor.manual_id b /\
  Processor.embedding a = Processor.embedding b.


(** ** Strings: splitting, joining, slicing *)

Lemma py_space : py " " = [32%N].
Proof. reflexivity. Qed.

(** The runtime functions on small inputs. *)
Example split_example :
  split (py "  a   bb" ++ [10%N; 9%N] ++ py "c  ") = [py "a"; py "bb"; py "c"].
Proof. reflexivity. Qed.

Example join_example : join (py " ") [py "a"; py "bb"; py "c"] = py "a bb c".
Proof. reflexivity. Qed.

Example strip_example : strip (py "  a b " ++ [10%N]) = py "a b".
Proof. reflexivity. Qed.

Example slice_example :
  py_slice [1; 2; 3; 4; 5] 1 3 = [2; 3] /\ py_slice [1; 2; 3; 4; 5] (-2) 9 = [4; 5]
  /\ py_slice [1; 2; 3; 4; 5] 0 (-3) = [1; 2] /\ py_slice [1; 2; 3; 4; 5] 4 2 = [].
Proof. repeat split. Qed.

Example normalize_example :
  @normalize ascii_tables (py "  Engine " ++ [10%N; 12%N] ++ py " start  ")
  = py "Engine start".
Proof. reflexivity. Qed.

(** Five words in windows of two with one word of overlap, before the
    filter; after it nothing is left. *)
Example chunk_loop_example :
  Processor.chunk_loop 6 (split (py "a b c d e")) 2 1 0 []
  = Some [py "a b"; py "b c"; py "c d"; py "d e"]
  /\ Processor.chunk_text 6 (py "a b c d e") 2 1 = Some [].
Proof. split; reflexivity. Qed.

Example metadata_example :
  @Processor.extract_metadata ascii_tables
    (py "Refer to ATA Chapter 49 for APU-MSTR-RESET procedure")
  = Processor.Metadata [] (py "ATA Chapter 49") (py "APU-MSTR-RESET")
  /\ @Ingest.infer_chapter ascii_tables
       (py "Refer to ata  chapter49 for APU-MSTR-RESET procedure")
     = py "ata  chapter49"
  /\ @Ingest.infer_part_number ascii_tables (py "valve xAPU-MSTR stuck") = []
  /\ @Ingest.infer_section ascii_tables (py "see section 4.1.2 - Fuel pumps, then")
     = py "section 4.1.2 - Fuel pumps".
Proof. repeat split; vm_compute; reflexivity. Qed.

Lemma isspace_32 : isspace 32 = true.
Proof. reflexivity. Qed.

Lemma split_token_cons (c : N) (w : str) (rest : str) :
  isspace c = false ->
  forallb (fun c => negb (isspace c)) w = true ->
  split (c :: w ++ 32%N :: rest) = (c :: w) :: split rest.
Proof.
  revert c. induction w as [|d w IH]; intros c Hc Hw.
  - cbn [app split]. rewrite Hc, isspace_32. reflexivity.
  - cbn [forallb] in Hw. apply andb_prop in Hw as [Hd Hw].
    apply negb_true_iff in Hd.
    change (split (c :: (d :: w) ++ 32%N :: rest))
      with (if isspace c then split (d :: w ++ 32%N :: rest)
            else if isspace d then [c] :: split (d :: w ++ 32%N :: rest)
                 else match split (d :: w ++ 32%N :: rest) with
                      | x :: ws => (c :: x) :: ws
                      | [] => [[c]]
                      end).
    rewrite Hc, Hd, (IH d Hd Hw). reflexivity.
Qed.

Lemma split_token_last (c : N) (w : str) :
  isspace c = false ->
  forallb (fun c => negb (isspace c)) w = true ->
  split (c :: w) = [c :: w].
Proof.
  revert c. induction w as [|d w IH]; intros c Hc Hw.
  - cbn. rewrite Hc. reflexivity.
  - cbn [forallb] in Hw. apply andb_prop in Hw as [Hd Hw].
    apply negb_true_iff in Hd.
    change (split (c :: d :: w))
      with (if isspace c then split (d :: w)
            else if isspace d then [c] :: split (d :: w)
                 else match split (d :: w) with
                      | x :: ws => (c :: x) :: ws
                      | [] => [[c]]
                      end).
    rewrite Hc, Hd, (IH d Hd Hw). reflexivity.
Qed.

(** Splitting what was joined by single spaces gives the words back. *)
Lemma split_join (ws : list str) :
  Forall is_token ws -> split (join (py " ") ws) = ws.
Proof.
  rewrite py_space.
  induction ws as [|w ws IH]; intros Hall; [reflexivity|].
  inversion Hall as [|? ? [Hne Hw] Hrest]; subst.
  destruct w as [|c w]; [congruence|].
  cbn [forallb] in Hw. apply andb_prop in Hw as [Hc Hw].
  apply negb_true_iff in Hc.
  destruct ws as [|w' ws'].
  - cbn [join]. apply split_token_last; assumption.
  - change (join [32%N] ((c :: w) :: w' :: ws'))
      with ((c :: w) ++ [32%N] ++ join [32%N] (w' :: ws')).
    cbn [app]. rewrite split_token_cons by assumption.
    rewrite (IH Hrest). reflexivity.
Qed.

(** [split] yields words. *)
Lemma split_tokens (s : str) : Forall is_token (split s).
Proof.
  induction s as [|c s IH]; [constructor|].
  cbn [split]. destruct (isspace c) eqn:Hc; [exact IH|].
  assert (Hone : is_token [c]).
  { split; [discriminate|]. cbn. rewrite Hc. reflexivity. }
  destruct s as [|d s]; [constructor; [exact Hone|constructor]|].
  destruct (isspace d) eqn:Hd; [constructor; assumption|].
  destruct (split (d :: s)) as [|w ws]; [constructor; [exact Hone|constructor]|].
  inversion IH as [|? ? [Hne Hw] Hrest]; subst.
  constructor; [|exact Hrest].
  split; [discriminate|]. cbn [forallb]. rewrite Hc, Hw. reflexivity.
Qed.

Lemma Forall_firstn {A : Type} (P : A -> Prop) (n : nat) (l : list A) :
  Forall P l -> Forall P (firstn n l).
Proof.
  revert l. induction n as [|n IH]; intros l Hl; [constructor|].
  destruct Hl; cbn; constructor; auto.
Qed.

Lemma Forall_skipn {A : Type} (P : A -> Prop) (n : nat) (l : list A) :
  Forall P l -> Forall P (skipn n l).
Proof.
  revert l. induction n as [|n IH]; intros l Hl; [exact Hl|].
  destruct Hl; cbn; [constructor|auto].
Qed.

Lemma slice_tokens (words : list str) (a b : Z) :
  Forall is_token words -> Forall is_token (py_slice words a b).
Proof.
  intros Hw. unfold py_slice. apply Forall_firstn, Forall_skipn, Hw.
Qed.

(** The word count of a rendered range is the length of the slice. *)
Lemma split_render (words : list str) (r : Z * Z) :
  Forall is_token words ->
  split (render words r) = py_slice words (fst r) (snd r).
Proof.
  intros Hw. unfold render. apply split_join, slice_tokens, Hw.
Qed.

Lemma slice_all {A : Type} (l : list A) : py_slice l 0 (len l) = l.
Proof.
  unfold py_slice, slice_index, len.
  replace (0 <? 0) with false by reflexivity.
  destruct (Z.ltb_spec (Z.of_nat (length l)) 0); [lia|].
  rewrite !Z.min_l by lia.
  cbn [Z.to_nat skipn]. rewrite Z.sub_0_r, Nat2Z.id.
  apply firstn_all.
Qed.

Lemma slice_length {A : Type} (l : list A) (a b : Z) :
  0 <= a <= b -> b <= len l -> len (py_slice l a b) = b - a.
Proof.
  unfold py_slice, slice_index, len. intros Hab Hb.
  destruct (Z.ltb_spec a 0); [lia|].
  destruct (Z.ltb_spec b 0); [lia|].
  rewrite !Z.min_l by lia.
  rewrite length_firstn, length_skipn. lia.
Qed.

(** ** The loop of chunk_text *)

Lemma ingest_loop_eq fuel words M O s acc :
  Ingest.chunk_loop fuel words M O s acc = Processor.chunk_loop fuel words M O s acc.
Proof. reflexivity. Qed.

(** The loop appends to [chunks] the rendering of the ranges it visits. *)
Lemma chunk_loop_ranges fuel words M O s acc :
  Processor.chunk_loop fuel words M O s acc =
  match chunk_ranges fuel (len words) M O s with
  | Some rs => Some (acc ++ map (render words) rs)
  | None => None
  end.
Proof.
  revert s acc. induction fuel as [|fuel IH]; intros s acc; [reflexivity|].
  cbn [Processor.chunk_loop chunk_ranges].
  destruct (s <? len words); [|rewrite app_nil_r; reflexivity].
  cbv zeta.
  destruct (Z.min (s + M) (len words) >=? len words); [reflexivity|].
  rewrite IH.
  destruct (chunk_ranges fuel (len words) M O (Z.min (s + M) (len words) - O));
    [|reflexivity].
  cbn [map]. rewrite <- app_assoc. reflexivity.
Qed.

(** What the loop returns has the shape [ranges_from]. *)
Lemma chunk_ranges_shape fuel L M O s rs :
  chunk_ranges fuel L M O s = Some rs -> ranges_from L M O s rs.
Proof.
  revert s rs. induction fuel as [|fuel IH]; intros s rs; [discriminate|].
  cbn [chunk_ranges].
  destruct (Z.ltb_spec s L) as [Hs|Hs].
  - cbv zeta. destruct (Z.geb_spec (Z.min (s + M) L) L) as [He|He].
    + intros [= <-]. cbn [ranges_from fst snd].
      repeat split; try lia. left. split; [lia|reflexivity].
    + destruct (chunk_ranges fuel L M O (Z.min (s + M) L - O)) as [rs'|] eqn:Hrs;
        [|discriminate].
      intros [= <-]. apply IH in Hrs.
      cbn [ranges_from fst snd]. repeat split; try lia.
      right. split; [lia|exact Hrs].
  - intros [= <-]. exact Hs.
Qed.

(** With [overlap < max_words] the cursor gains at least one word per
    iteration, so [L - start] iterations and one last test suffice. *)
Lemma chunk_ranges_total fuel L M O s :
  O < M -> (Z.to_nat (L - s) < fuel)%nat ->
  exists rs, chunk_ranges fuel L M O s = Some rs.
Proof.
  intros HOM. revert s. induction fuel as [|fuel IH]; intros s Hf; [lia|].
  cbn [chunk_ranges].
  destruct (Z.ltb_spec s L) as [Hs|Hs]; [|eauto].
  cbv zeta. destruct (Z.geb_spec (Z.min (s + M) L) L) as [He|He]; [eauto|].
  destruct (IH (Z.min (s + M) L - O)) as [rs Hrs]; [lia|].
  rewrite Hrs. eauto.
Qed.

(** More fuel does not change a result. *)
Lemma chunk_ranges_more fuel fuel' L M O s rs :
  chunk_ranges fuel L M O s = Some rs -> (fuel <= fuel')%nat ->
  chunk_ranges fuel' L M O s = Some rs.
Proof.
  revert fuel' s rs. induction fuel as [|fuel IH]; intros fuel' s rs; [discriminate|].
  intros Hrs Hle. destruct fuel' as [|fuel']; [lia|].
  cbn [chunk_ranges] in *.
  destruct (s <? L); [|exact Hrs].
  cbv zeta in *. destruct (Z.min (s + M) L >=? L); [exact Hrs|].
  destruct (chunk_ranges fuel L M O (Z.min (s + M) L - O)) as [rs'|] eqn:Hrs';
    [|discriminate].
  rewrite (IH fuel' _ _ Hrs') by lia. exact Hrs.
Qed.

(** ** Arithmetic of the chunk count *)

Lemma ceil_div_bounds (a b q : Z) :
  0 < b -> (q - 1) * b < a <= q * b -> ceil_div a b = q.
Proof.
  intros Hb Hq. unfold ceil_div.
  assert (Hdiv : - a / b = - q).
  { symmetry. apply (Z.div_unique (- a) b (- q) (q * b - a)); lia. }
  lia.
Qed.

Lemma ranges_from_count (L M O : Z) (rs : list (Z * Z)) :
  0 <= O < M ->
  forall s, ranges_from L M O s rs -> s < L ->
  if s + M <? L
  then (len rs - 1) * (M - O) < L - s - O <= len rs * (M - O)
  else len rs = 1.
Proof.
  intros HOM. induction rs as [|r rs IH]; intros s Hrs Hs.
  - cbn in Hrs. lia.
  - cbn [ranges_from] in Hrs.
    destruct Hrs as (_ & Ha & Hb & [[Hend ->]|[Hlt Hrest]]).
    + destruct (Z.ltb_spec (s + M) L); [lia|reflexivity].
    + destruct (Z.ltb_spec (s + M) L) as [HsM|HsM]; [|lia].
      assert (Hb' : snd r = s + M) by lia.
      specialize (IH (snd r - O) Hrest ltac:(lia)).
      unfold len in *. cbn [length] in *.
      destruct (Z.ltb_spec (snd r - O + M) L); nia.
Qed.

(** Consecutive ranges: the second starts [O] words before the end of
    the first, which is a full window. *)
Lemma ranges_from_next (L M O : Z) (rs : list (Z * Z)) :
  forall s, ranges_from L M O s rs ->
  forall (i : nat) (r1 r2 : Z * Z),
    nth_error rs i = Some r1 -> nth_error rs (S i) = Some r2 ->
    snd r1 = fst r1 + M /\ snd r1 < L /\
    fst r2 = snd r1 - O /\ fst r2 < L /\ snd r2 = Z.min (fst r2 + M) L.
Proof.
  induction rs as [|r rs IH]; intros s Hrs i r1 r2 H1 H2.
  - destruct i; discriminate.
  - cbn [ranges_from] in Hrs.
    destruct Hrs as (Hs & Ha & Hb & [[Hend ->]|[Hlt Hrest]]);
      [destruct i as [|[|i]]; discriminate|].
    destruct i as [|i].
    + destruct rs as [|r' rs]; [discriminate|].
      cbn in H1, H2. injection H1 as <-. injection H2 as <-.
      cbn [ranges_from] in Hrest. destruct Hrest as (Hs' & Ha' & Hb' & _).
      repeat split; lia.
    + cbn [nth_error] in H1. exact (IH _ Hrest i r1 r2 H1 H2).
Qed.

(** With a cursor that starts at a word index and [0 <= O < M], every
    range is a non-empty range of word indices of at most [M] words. *)
Lemma ranges_from_bounds (L M O : Z) (rs : list (Z * Z)) :
  0 <= O < M ->
  forall s, 0 <= s -> ranges_from L M O s rs ->
  Forall (fun r => 0 <= fst r < snd r /\ snd r <= L /\ snd r - fst r <= M) rs.
Proof.
  intros HOM. induction rs as [|r rs IH]; intros s Hs Hrs; [constructor|].
  cbn [ranges_from] in Hrs.
  destruct Hrs as (HsL & Ha & Hb & Hrest). constructor; [lia|].
  destruct Hrest as [[_ ->]|[Hlt Hrest]]; [constructor|].
  apply (IH (snd r - O)); [lia|exact Hrest].
Qed.

(** A text of at most [max_words] words is one chunk: all its words. *)
Lemma chunk_loop_short (fuel : nat) (words : list str) (M O : Z) :
  0 < len words <= M ->
  Processor.chunk_loop (S fuel) words M O 0 [] = Some [join (py " ") words].
Proof.
  intros HL. cbn [Processor.chunk_loop].
  destruct (Z.ltb_spec 0 (len words)); [|lia].
  cbv zeta. rewrite Z.add_0_l, Z.min_r by lia.
  destruct (Z.geb_spec (len words) (len words)); [|lia].
  rewrite slice_all. reflexivity.
Qed.

Lemma chunk_loop_empty (fuel : nat) (M O : Z) :
  Processor.chunk_loop (S fuel) [] M O 0 [] = Some [].
Proof. reflexivity. Qed.

(** With [max_words <= overlap] and more than [max_words] words, the
    cursor never moves forward and the loop never ends. *)
Lemma chunk_ranges_diverges (fuel : nat) (L M O s : Z) :
  M <= O -> M < L -> 0 < L -> s <= 0 ->
  chunk_ranges fuel L M O s = None.
Proof.
  intros HOM HML HL. revert s. induction fuel as [|fuel IH]; intros s Hs;
    [reflexivity|].
  cbn [chunk_ranges].
  destruct (Z.ltb_spec s L); [|lia].
  cbv zeta. destruct (Z.geb_spec (Z.min (s + M) L) L); [lia|].
  rewrite IH by lia. reflexivity.
Qed.

(** ** C1: number of chunks and overlap of consecutive chunks *)

(** C1, as stated, fails.  On the empty text the loop emits no chunk at
    all, where the claim promises one; and the condition [O < M] alone
    admits a negative overlap, for which the count is not the formula
    (five words, windows of two, overlap -5: one chunk, formula 2). *)
Lemma C1_counterexample :
  (len (split (py "")) <= 800 /\
   Processor.chunk_loop 1 (split (py "")) 800 120 0 [] = Some [] /\
   Ingest.chunk_loop 1 (split (py "")) 800 120 0 [] = Some [] /\
   Processor.chunk_text 1 (py "") 800 120 = Some [] /\
   length (@nil str) <> 1%nat) /\
  (-5 < 2 /\ 2 < len (split (py "a b c d e")) /\
   Processor.chunk_loop 6 (split (py "a b c d e")) 2 (-5) 0 [] = Some [py "a b"] /\
   ceil_div (len (split (py "a b c d e")) - -5) (2 - -5) = 2).
Proof. vm_compute. intuition (discriminate || reflexivity). Qed.

(** C1 (amended): for a text of [L] words and [0 <= O < M], both loops
    emit the renderings of the same list of word ranges; there are
    [ceil((L-O)/(M-O))] of them when [L > M], one when [1 <= L <= M] and
    none when [L = 0]; every range is a range of word indices of at most
    [M] words, and its chunk has as many words as the range has indices;
    and each range starts [O] words before the end of the one before it,
    so that any two consecutive ranges share exactly [O] words. *)
Theorem C1_chunk_count_and_overlap (text : str) (M O : Z) :
  0 <= O < M ->
  exists rs : list (Z * Z),
    (forall fuel, (length (split text) < fuel)%nat ->
       Processor.chunk_loop fuel (split text) M O 0 [] =
         Some (map (render (split text)) rs) /\
       Ingest.chunk_loop fuel (split text) M O 0 [] =
         Some (map (render (split text)) rs)) /\
    len rs = (if len (split text) =? 0 then 0
              else if M <? len (split text)
                   then ceil_div (len (split text) - O) (M - O)
                   else 1) /\
    Forall (fun r => 0 <= fst r < snd r /\ snd r <= len (split text)
                     /\ snd r - fst r <= M
                     /\ len (split (render (split text) r)) = snd r - fst r)
           rs /\
    (forall i r1 r2,
       nth_error rs i = Some r1 -> nth_error rs (S i) = Some r2 ->
       fst r2 = snd r1 - O /\ range_overlap r1 r2 = O).
Proof.
  intros HOM. set (words := split text). set (L := len words).
  destruct (chunk_ranges_total (S (length words)) L M O 0) as [rs Hrs];
    [lia|unfold L, len; lia|].
  pose proof (chunk_ranges_shape _ _ _ _ _ _ Hrs) as Hshape.
  exists rs. split; [|split; [|split]].
  - intros fuel Hfuel.
    assert (Hrun : Processor.chunk_loop fuel words M O 0 [] =
                   Some (map (render words) rs)).
    { rewrite chunk_loop_ranges. fold L.
      rewrite (chunk_ranges_more _ fuel _ _ _ _ _ Hrs) by lia. reflexivity. }
    split; [exact Hrun|]. rewrite <- Hrun. apply ingest_loop_eq.
  - destruct (Z.eqb_spec L 0) as [HL|HL].
    + destruct rs as [|r rs]; [reflexivity|].
      cbn [ranges_from] in Hshape. lia.
    + assert (HLpos : 0 < L) by (unfold L, len in *; lia).
      pose proof (ranges_from_count L M O rs HOM 0 Hshape HLpos) as Hcount.
      rewrite Z.add_0_l, Z.sub_0_r in Hcount.
      destruct (Z.ltb_spec M L); [|exact Hcount].
      symmetry. apply ceil_div_bounds; lia.
  - eapply Forall_impl;
      [|apply (ranges_from_bounds L M O rs HOM 0); [lia|exact Hshape]].
    intros r (Hr1 & Hr2 & Hr3). repeat (split; [lia|]).
    fold words. rewrite split_render by apply split_tokens.
    apply slice_length; [lia|exact Hr2].
  - intros i r1 r2 H1 H2.
    destruct (ranges_from_next L M O rs 0 Hshape i r1 r2 H1 H2)
      as (He1 & Hlt & Hs2 & Hs2L & He2).
    split; [exact Hs2|]. unfold range_overlap. lia.
Qed.

(** C1 at five words, windows of two words, overlap one: four chunks. *)
Lemma C1_witness :
  0 <= 1 < 2 /\
  exists rs : list (Z * Z),
    Processor.chunk_loop 6 (split (py "a b c d e")) 2 1 0 [] =
      Some (map (render (split (py "a b c d e"))) rs) /\
    len rs = ceil_div (5 - 1) (2 - 1).
Proof.
  split; [lia|].
  destruct (C1_chunk_count_and_overlap (py "a b c d e") 2 1 ltac:(lia))
    as (rs & Hrun & Hcount & _).
  exists rs. split; [apply Hrun; cbn; lia|exact Hcount].
Defined.

(** ** C2: termination *)

Lemma chunk_text_ranges (fuel : nat) (text : str) (M O : Z) :
  Processor.chunk_text fuel text M O =
  match chunk_ranges fuel (len (split text)) M O 0 with
  | Some rs =>
      Some (filter (fun c => 50 <? len (split c))
                   (map (render (split text)) rs))
  | None => None
  end.
Proof.
  unfold Processor.chunk_text. rewrite chunk_loop_ranges.
  destruct (chunk_ranges fuel (len (split text)) M O 0); reflexivity.
Qed.

(** The cursor gains at least one word per range, so there are at most
    [L - s] ranges. *)
Lemma ranges_from_length (L M O : Z) (rs : list (Z * Z)) :
  O < M -> forall s, ranges_from L M O s rs -> len rs <= Z.max 0 (L - s).
Proof.
  intros HOM. induction rs as [|r rs IH]; intros s Hrs.
  - unfold len. cbn. lia.
  - cbn [ranges_from] in Hrs.
    destruct Hrs as (Hs & Ha & Hb & [[_ ->]|[Hlt Hrest]]).
    + unfold len. cbn. lia.
    + specialize (IH _ Hrest). unfold len in *. cbn [length]. lia.
Qed.

(** C2: when [overlap < max_words], [chunk_text] returns, in both
    scripts, as soon as the fuel exceeds the number of words; the loop
    visits at most as many ranges as there are words, and from one range
    to the next the cursor strictly advances. *)
Theorem C2_chunk_text_terminates (text : str) (M O : Z) :
  O < M ->
  exists (rs : list (Z * Z)) (chunks : list str),
    (forall fuel, (length (split text) < fuel)%nat ->
       chunk_ranges fuel (len (split text)) M O 0 = Some rs /\
       Processor.chunk_text fuel text M O = Some chunks /\
       Ingest.chunk_text fuel text M O = Some chunks) /\
    len rs <= len (split text) /\
    (forall i r1 r2,
       nth_error rs i = Some r1 -> nth_error rs (S i) = Some r2 ->
       fst r1 < fst r2).
Proof.
  intros HOM.
  destruct (chunk_ranges_total (S (length (split text))) (len (split text)) M O 0)
    as [rs Hrs]; [exact HOM|unfold len; lia|].
  pose proof (chunk_ranges_shape _ _ _ _ _ _ Hrs) as Hshape.
  exists rs.
  exists (filter (fun c => 50 <? len (split c)) (map (render (split text)) rs)).
  split; [|split].
  - intros fuel Hfuel.
    pose proof (chunk_ranges_more _ fuel _ _ _ _ _ Hrs ltac:(lia)) as Hmore.
    assert (Hrun : Processor.chunk_text fuel text M O =
                   Some (filter (fun c => 50 <? len (split c))
                                (map (render (split text)) rs)))
      by (rewrite chunk_text_ranges, Hmore; reflexivity).
    repeat split; [exact Hmore|exact Hrun|exact Hrun].
  - pose proof (ranges_from_length _ _ _ rs HOM 0 Hshape). unfold len in *. lia.
  - intros i r1 r2 H1 H2.
    destruct (ranges_from_next _ _ _ rs 0 Hshape i r1 r2 H1 H2)
      as (He1 & _ & Hs2 & _). lia.
Qed.

(** C2 at five words, windows of two words, overlap one. *)
Lemma C2_witness :
  1 < 2 /\
  exists chunks : list str,
    Processor.chunk_text 6 (py "a b c d e") 2 1 = Some chunks.
Proof.
  split; [lia|].
  destruct (C2_chunk_text_terminates (py "a b c d e") 2 1 ltac:(lia))
    as (rs & chunks & Hrun & _).
  exists chunks. apply Hrun. cbn. lia.
Defined.

(** ** C3: invalid configurations *)

(** C3, as stated, fails: with [max_words = overlap = 60], an invalid
    configuration, a text of 51 words is chunked as usual and its chunk
    returned; and with [max_words = overlap = 1] on two words the run is
    still going after 1000 tests of the loop condition.  Nothing is
    rejected. *)
Lemma C3_counterexample :
  60 >= 60 /\
  Processor.chunk_text 1 words51 60 60 = Some [words51] /\
  Ingest.chunk_text 1 words51 60 60 = Some [words51] /\
  Processor.chunk_text 1000 (py "a b") 1 1 = None /\
  Ingest.chunk_text 1000 (py "a b") 1 1 = None.
Proof. vm_compute. intuition discriminate. Qed.

(** C3 (amended): [chunk_text] never rejects a configuration.  With
    [overlap >= max_words] it returns as usual when the text has at most
    [max_words] words (or none at all), already at the first iteration;
    when the text has more words than [max_words], the loop never
    ends. *)
Theorem C3_invalid_configuration (text : str) (M O : Z) :
  M <= O ->
  (len (split text) <= M \/ len (split text) = 0 ->
   forall fuel, exists chunks,
     Processor.chunk_text (S fuel) text M O = Some chunks /\
     Ingest.chunk_text (S fuel) text M O = Some chunks) /\
  (M < len (split text) -> 0 < len (split text) ->
   forall fuel,
     Processor.chunk_text fuel text M O = None /\
     Ingest.chunk_text fuel text M O = None).
Proof.
  intros HOM. split.
  - intros HL fuel.
    assert (Hrun : exists chunks,
               Processor.chunk_text (S fuel) text M O = Some chunks).
    { unfold Processor.chunk_text.
      destruct (split text) as [|w ws] eqn:Hw.
      - rewrite chunk_loop_empty. eauto.
      - rewrite chunk_loop_short; [eauto|].
        unfold len in *. cbn [length] in *. lia. }
    destruct Hrun as [chunks Hrun]. exists chunks. split; exact Hrun.
  - intros HML HL fuel.
    assert (Hrun : Processor.chunk_text fuel text M O = None)
      by (rewrite chunk_text_ranges, chunk_ranges_diverges by lia; reflexivity).
    split; exact Hrun.
Qed.

(** C3 at two words with [max_words = overlap = 1]: the run never ends. *)
Lemma C3_witness :
  1 <= 1 /\
  forall fuel, Processor.chunk_text fuel (py "a b") 1 1 = None.
Proof.
  split; [lia|]. intros fuel.
  apply (C3_invalid_configuration (py "a b") 1 1 ltac:(lia));
    vm_compute; reflexivity.
Defined.

(** ** C4: the filter on the word count *)

(** With the default configuration, a text of at most 800 words and at
    least one is emitted as one chunk, kept when it has more than 50
    words. *)
Lemma chunk_text_default_short (fuel : nat) (text : str) :
  0 < len (split text) <= 800 ->
  Processor.chunk_text (S fuel) text 800 120 =
  Some (if 50 <? len (split text) then [join (py " ") (split text)] else []).
Proof.
  intros HL. unfold Processor.chunk_text.
  rewrite chunk_loop_short by exact HL.
  cbn [filter]. rewrite split_join by apply split_tokens.
  destruct (50 <? len (split text)); reflexivity.
Qed.

(** C4: in both scripts, every chunk that [chunk_text] returns has more
    than 50 words, whatever the text and the configuration; with the
    default configuration a text of exactly 50 words yields no chunk and
    a text of exactly 51 words yields exactly one chunk, its 51 words
    joined by single spaces. *)
Theorem C4_no_chunk_of_50_words_or_less :
  (forall fuel text M O chunks,
     Processor.chunk_text fuel text M O = Some chunks \/
     Ingest.chunk_text fuel text M O = Some chunks ->
     Forall (fun c => 50 < len (split c)) chunks) /\
  (forall fuel text,
     len (split text) = 50 ->
     Processor.chunk_text (S fuel) text 800 120 = Some [] /\
     Ingest.chunk_text (S fuel) text 800 120 = Some []) /\
  (forall fuel text,
     len (split text) = 51 ->
     Processor.chunk_text (S fuel) text 800 120 =
       Some [join (py " ") (split text)] /\
     Ingest.chunk_text (S fuel) text 800 120 =
       Some [join (py " ") (split text)]).
Proof.
  split; [|split].
  - intros fuel text M O chunks Hrun.
    assert (Hp : Processor.chunk_text fuel text M O = Some chunks)
      by (destruct Hrun as [Hrun|Hrun]; exact Hrun).
    unfold Processor.chunk_text in Hp.
    destruct (Processor.chunk_loop fuel (split text) M O 0 []) as [all|];
      [|discriminate].
    injection Hp as <-. apply Forall_forall. intros c Hc.
    apply filter_In in Hc as [_ Hc]. apply Z.ltb_lt. exact Hc.
  - intros fuel text HL.
    pose proof (chunk_text_default_short fuel text ltac:(lia)) as Hrun.
    rewrite HL in Hrun. split; exact Hrun.
  - intros fuel text HL.
    pose proof (chunk_text_default_short fuel text ltac:(lia)) as Hrun.
    rewrite HL in Hrun. split; exact Hrun.
Qed.

(** C4 at a text of 51 words and at a text of 50 words. *)
Lemma C4_witness :
  (Processor.chunk_text 1 words51 800 120 = Some [words51] /\
   50 < len (split words51)) /\
  (len (split words50) = 50 /\
   Processor.chunk_text 1 words50 800 120 = Some []) /\
  (len (split words51) = 51 /\
   Ingest.chunk_text 1 words51 800 120 = Some [join (py " ") (split words51)]).
Proof.
  destruct C4_no_chunk_of_50_words_or_less as (Hall & H50 & H51).
  assert (Hrun : Processor.chunk_text 1 words51 800 120 = Some [words51])
    by (vm_compute; reflexivity).
  split; [|split].
  - split; [exact Hrun|].
    pose proof (Hall 1%nat words51 800 120 [words51] (or_introl Hrun)) as Hc.
    inversion Hc; assumption.
  - split; [vm_compute; reflexivity|].
    apply (H50 0%nat words50). vm_compute; reflexivity.
  - split; [vm_compute; reflexivity|].
    apply (H51 0%nat words51). vm_compute; reflexivity.
Defined.

(** ** C10: the two chunk_text functions *)

(** C10: the two functions agree on every text and every pair of
    parameters: with the same fuel both are still running, or both have
    returned the same list of chunks. *)
Theorem C10_chunk_text_agree (fuel : nat) (text : str) (max_words overlap : Z) :
  Processor.chunk_text fuel text max_words overlap =
  Ingest.chunk_text fuel text max_words overlap.
Proof.
  unfold Processor.chunk_text, Ingest.chunk_text.
  assert (Hloop : forall words start chunks,
             Processor.chunk_loop fuel words max_words overlap start chunks =
             Ingest.chunk_loop fuel words max_words overlap start chunks).
  { induction fuel as [|n IH]; intros words start chunks; [reflexivity|].
    cbn [Processor.chunk_loop Ingest.chunk_loop].
    destruct (start <? len words); [|reflexivity].
    cbv zeta. destruct (Z.min (start + max_words) (len words) >=? len words);
      [reflexivity|apply IH]. }
  rewrite Hloop. reflexivity.
Qed.

(** ** C5: whitespace normalisation *)

Section Normalisation.
Context `{UnicodeTables}.

(** Greedy whitespace with nothing after it takes the whole run. *)
Lemma star_spaces (prev : option N) (s : str) :
  star false [CSpace] (fun _ rest => Some rest) prev s = Some (lstrip s).
Proof.
  revert prev. induction s as [|c s IH]; intros prev; [reflexivity|].
  cbn [star lstrip in_cset existsb in_item].
  rewrite orb_false_r. destruct (isspace c); [|reflexivity].
  rewrite IH. reflexivity.
Qed.

Lemma match_spaces (prev : option N) (c : N) (s : str) :
  match_here false re_spaces prev (c :: s) =
  if isspace c then Some (lstrip s) else None.
Proof.
  unfold match_here, re_spaces, plus.
  cbn [rmatch in_cset existsb in_item]. rewrite orb_false_r.
  destruct (isspace c); [apply star_spaces|reflexivity].
Qed.

Lemma lstrip_length (s : str) : (length (lstrip s) <= length s)%nat.
Proof.
  induction s as [|c s IH]; [reflexivity|].
  cbn [lstrip]. destruct (isspace c); cbn [length]; lia.
Qed.

Lemma collapse_space (c : N) (s : str) :
  isspace c = true -> collapse (c :: s) = 32%N :: collapse (lstrip s).
Proof.
  revert c. induction s as [|d s IH]; intros c Hc.
  - cbn. rewrite Hc. reflexivity.
  - change (collapse (c :: d :: s))
      with (if isspace c
            then if isspace d then collapse (d :: s)
                 else 32%N :: collapse (d :: s)
            else c :: collapse (d :: s)).
    rewrite Hc. cbn [lstrip].
    destruct (isspace d) eqn:Hd; [apply IH, Hd|reflexivity].
Qed.

Lemma collapse_other (c : N) (s : str) :
  isspace c = false -> collapse (c :: s) = c :: collapse s.
Proof. intros Hc. cbn [collapse]. rewrite Hc. reflexivity. Qed.

(** The substitution of the scripts is [collapse]. *)
Lemma sub_spaces (fuel : nat) (prev : option N) (s : str) :
  (length s < fuel)%nat ->
  sub_from false fuel re_spaces (py " ") prev s = collapse s.
Proof.
  revert prev s. induction fuel as [|fuel IH]; intros prev s Hf; [lia|].
  destruct s as [|c s]; [reflexivity|].
  cbn [sub_from]. rewrite match_spaces.
  destruct (isspace c) eqn:Hc.
  - pose proof (lstrip_length s) as Hlen.
    destruct (Nat.ltb_spec (length (lstrip s)) (length (c :: s))) as [_|Hge];
      [|cbn [length] in Hge; lia].
    rewrite IH by (cbn [length] in Hf; lia).
    rewrite collapse_space by exact Hc. reflexivity.
  - rewrite IH by (cbn [length] in Hf; lia).
    rewrite collapse_other by exact Hc. reflexivity.
Qed.

Lemma normalize_collapse (text : str) : normalize text = strip (collapse text).
Proof.
  unfold normalize, re_sub. rewrite sub_spaces by lia. reflexivity.
Qed.
End Normalisation.

Lemma tidy_collapse (s : str) : tidy (collapse s).
Proof.
  induction s as [|c s IH]; [exact I|].
  destruct (isspace c) eqn:Hc.
  - destruct s as [|d s].
    + cbn. rewrite Hc. cbn. auto.
    + change (collapse (c :: d :: s))
        with (if isspace c
              then if isspace d then collapse (d :: s)
                   else 32%N :: collapse (d :: s)
              else c :: collapse (d :: s)).
      rewrite Hc. destruct (isspace d) eqn:Hd; [exact IH|].
      split; [|exact IH]. intros _. split; [reflexivity|].
      rewrite collapse_other by exact Hd. exact Hd.
  - rewrite collapse_other by exact Hc. split; [|exact IH].
    intros Hc'. congruence.
Qed.

Lemma collapse_tidy (s : str) : tidy s -> collapse s = s.
Proof.
  induction s as [|c s IH]; [reflexivity|].
  intros [Hhead Htail]. destruct (isspace c) eqn:Hc.
  - destruct (Hhead eq_refl) as [-> Hnext].
    destruct s as [|d s]; [reflexivity|].
    change (collapse (32%N :: d :: s))
      with (if isspace 32 then if isspace d then collapse (d :: s)
                 else 32%N :: collapse (d :: s)
            else 32%N :: collapse (d :: s)).
    rewrite Hc, Hnext, (IH Htail). reflexivity.
  - rewrite collapse_other by exact Hc. rewrite (IH Htail). reflexivity.
Qed.

Lemma tidy_app_r (a b : str) : tidy (a ++ b) -> tidy b.
Proof.
  induction a as [|c a IH]; [auto|]. intros [_ Ht]. exact (IH Ht).
Qed.

Lemma tidy_app_l (a b : str) : tidy (a ++ b) -> tidy a.
Proof.
  induction a as [|c a IH]; [intros; exact I|].
  intros [Hhead Ht]. split; [|exact (IH Ht)].
  intros Hc. destruct (Hhead Hc) as [-> Hnext]. split; [reflexivity|].
  destruct a; [exact I|exact Hnext].
Qed.

Lemma tidy_no_adjacent (s : str) : tidy s -> adjacent_spaces s = false.
Proof.
  induction s as [|c s IH]; [reflexivity|].
  intros [Hhead Ht]. destruct s as [|d s]; [reflexivity|].
  change (adjacent_spaces (c :: d :: s))
    with ((isspace c && isspace d) || adjacent_spaces (d :: s)).
  rewrite (IH Ht), orb_false_r.
  destruct (isspace c); [|reflexivity].
  destruct (Hhead eq_refl) as [_ ->]. reflexivity.
Qed.

Lemma lstrip_suffix (s : str) : exists p, s = p ++ lstrip s.
Proof.
  induction s as [|c s [p IH]]; [exists []; reflexivity|].
  cbn [lstrip]. destruct (isspace c).
  - exists (c :: p). cbn. rewrite <- IH. reflexivity.
  - exists []. reflexivity.
Qed.

Lemma rstrip_prefix (s : str) : exists q, s = rstrip s ++ q.
Proof.
  destruct (lstrip_suffix (rev s)) as [p Hp].
  exists (rev p). unfold rstrip.
  rewrite <- rev_app_distr, <- Hp, rev_involutive. reflexivity.
Qed.

Lemma lstrip_clean (s : str) : starts_clean (lstrip s).
Proof.
  induction s as [|c s IH]; [exact I|].
  cbn [lstrip]. destruct (isspace c) eqn:Hc; [exact IH|exact Hc].
Qed.

Lemma lstrip_id (s : str) : starts_clean s -> lstrip s = s.
Proof.
  destruct s as [|c s]; [reflexivity|]. cbn. intros ->. reflexivity.
Qed.

Lemma rstrip_clean (s : str) : starts_clean s -> starts_clean (rstrip s).
Proof.
  intros Hs. destruct (rstrip_prefix s) as [q Hq].
  destruct (rstrip s) as [|c r]; [exact I|].
  rewrite Hq in Hs. exact Hs.
Qed.

Lemma rstrip_rstrip (s : str) : rstrip (rstrip s) = rstrip s.
Proof.
  unfold rstrip. rewrite rev_involutive.
  rewrite (lstrip_id (lstrip (rev s))) by apply lstrip_clean. reflexivity.
Qed.

(** Stripping twice is stripping once. *)
Lemma strip_strip (s : str) : strip (strip s) = strip s.
Proof.
  unfold strip.
  rewrite (lstrip_id (rstrip (lstrip s))) by apply rstrip_clean, lstrip_clean.
  apply rstrip_rstrip.
Qed.

Lemma tidy_strip (s : str) : tidy s -> tidy (strip s).
Proof.
  intros Hs. unfold strip.
  destruct (lstrip_suffix s) as [p Hp].
  destruct (rstrip_prefix (lstrip s)) as [q Hq].
  rewrite Hp in Hs. apply tidy_app_r in Hs.
  rewrite Hq in Hs. apply tidy_app_l in Hs. exact Hs.
Qed.

(** C5: normalisation, the same expression in both scripts, is
    idempotent, and its result never holds two whitespace characters in
    a row. *)
Theorem C5_normalize_idempotent `{UnicodeTables} (T : str) :
  normalize (normalize T) = normalize T /\
  adjacent_spaces (normalize T) = false.
Proof.
  rewrite !normalize_collapse.
  pose proof (tidy_strip _ (tidy_collapse T)) as Ht.
  split.
  - rewrite (collapse_tidy _ Ht). apply strip_strip.
  - apply tidy_no_adjacent, Ht.
Qed.

(** ** C6 and C7: the metadata rules *)

Section Metadata.
Context `{UnicodeTables}.

(** A pattern that matches at the start of [s], whatever comes before,
    is found in every text that ends with [s]. *)
Lemma search_from_found (ic : bool) (r : regex) (s : str) :
  (forall prev, match_here ic r prev s <> None) ->
  forall (pre : str) (pos : nat) (prev : option N),
  exists (pos' : nat) (g : str),
    search_from ic r pos prev (pre ++ s) = Some (pos', g)
    /\ (pos' <= pos + length pre)%nat.
Proof.
  intros Hs. induction pre as [|c pre IH]; intros pos prev.
  - cbn [app]. destruct s as [|c s].
    + cbn [search_from]. specialize (Hs prev).
      destruct (match_here ic r prev []) as [rest|]; [|congruence].
      exists pos, (matched [] rest). split; [reflexivity|cbn; lia].
    + cbn [search_from]. specialize (Hs prev).
      destruct (match_here ic r prev (c :: s)) as [rest|]; [|congruence].
      exists pos, (matched (c :: s) rest). split; [reflexivity|cbn; lia].
  - cbn [app search_from].
    destruct (match_here ic r prev (c :: pre ++ s)) as [rest|].
    + exists pos, (matched (c :: pre ++ s) rest).
      split; [reflexivity|cbn; lia].
    + destruct (IH (S pos) (Some c)) as (pos' & g & Hfound & Hpos).
      exists pos', g. split; [exact Hfound|cbn [length]; lia].
Qed.

(** The first variant matches where "ATA Chapter 49" stands. *)
Lemma chapter_variant_here (prev : option N) (suf : str) :
  match_here true Ingest.ata_chapter_re prev (py "ATA Chapter 49" ++ suf)
  = Some suf.
Proof. vm_compute. reflexivity. Qed.
End Metadata.

(** C6, as stated, fails for [extract_metadata] of
    aviation_manual_processor.py: its single pattern with an optional
    "Chapter" finds the leftmost match, so that with "ATA 21" before
    "ATA Chapter 49" the chapter is "ATA 21". *)
Lemma C6_counterexample :
  Processor.ata_chapter
    (@Processor.extract_metadata ascii_tables two_chapters_text) = py "ATA 21" /\
  py "ATA 21" <> py "ATA Chapter 49".
Proof. split; [vm_compute; reflexivity|discriminate]. Qed.

(** C6 (amended): [infer_chapter] of ingest_aviation_manuals.py tries
    "ATA Chapter NN" before the bare "ATA NN" and returns the match of
    the first variant that is found anywhere in the text: a text that
    holds "ATA Chapter 49" yields a match of the first variant whatever
    stands before it, and with "ATA 21" before "ATA Chapter 49" the
    result is "ATA Chapter 49".  [extract_metadata] of
    aviation_manual_processor.py uses one pattern with an optional
    "Chapter" and returns the leftmost match, "ATA 21" on that text. *)
Theorem C6_chapter_variants_in_order `{UnicodeTables} :
  (forall text,
     Ingest.infer_chapter text =
     match re_search true Ingest.ata_chapter_re text with
     | Some (_, g) => strip g
     | None =>
         match re_search true Ingest.ata_bare_re text with
         | Some (_, g) => strip g
         | None => []
         end
     end) /\
  (forall pre suf,
     exists pos g,
       re_search true Ingest.ata_chapter_re (pre ++ py "ATA Chapter 49" ++ suf)
         = Some (pos, g) /\
       (pos <= length pre)%nat /\
       Ingest.infer_chapter (pre ++ py "ATA Chapter 49" ++ suf) = strip g) /\
  re_search true Ingest.ata_bare_re two_chapters_text = Some (4%nat, py "ATA 21") /\
  re_search true Ingest.ata_chapter_re two_chapters_text
    = Some (23%nat, py "ATA Chapter 49") /\
  Ingest.infer_chapter two_chapters_text = py "ATA Chapter 49" /\
  Processor.ata_chapter (Processor.extract_metadata two_chapters_text)
    = py "ATA 21".
Proof.
  split; [|split; [|repeat split; vm_compute; reflexivity]].
  - intros text. unfold Ingest.infer_chapter, Ingest.chapter_patterns.
    cbn [Ingest.first_search].
    destruct (re_search true Ingest.ata_chapter_re text) as [[pos g]|];
      [reflexivity|].
    destruct (re_search true Ingest.ata_bare_re text) as [[pos g]|]; reflexivity.
  - intros pre suf.
    destruct (search_from_found true Ingest.ata_chapter_re
                (py "ATA Chapter 49" ++ suf)
                ltac:(intros prev; rewrite chapter_variant_here; discriminate)
                pre 0%nat None) as (pos & g & Hfound & Hpos).
    exists pos, g. split; [exact Hfound|]. split; [lia|].
    unfold Ingest.infer_chapter, Ingest.chapter_patterns.
    cbn [Ingest.first_search]. unfold re_search. rewrite Hfound. reflexivity.
Qed.

(** C7, as stated, fails: the last character set of the section pattern
    also takes the blank and the word that follow "Systems", so the
    section is longer than the one the claim gives. *)
Lemma C7_counterexample :
  Processor.section (@Processor.extract_metadata ascii_tables section_text)
    = py "SECTION 3.2: Engine Systems details" /\
  @Ingest.infer_section ascii_tables section_text
    = py "SECTION 3.2: Engine Systems details" /\
  length (py "SECTION 3.2: Engine Systems details")
    <> length (py "SECTION 3.2: Engine Systems").
Proof. repeat split; vm_compute; (reflexivity || discriminate). Qed.

(** C7 (amended): on "SECTION 3.2: Engine Systems details..." both
    scripts return the section "SECTION 3.2: Engine Systems details"
    (the match runs up to the first full stop), an empty chapter and an
    empty part number. *)
Theorem C7_section_example `{UnicodeTables} :
  Processor.extract_metadata section_text =
    Processor.Metadata (py "SECTION 3.2: Engine Systems details") [] [] /\
  Ingest.infer_section section_text = py "SECTION 3.2: Engine Systems details" /\
  Ingest.infer_chapter section_text = [] /\
  Ingest.infer_part_number section_text = [].
Proof. repeat split; vm_compute; reflexivity. Qed.

(** ** The pipelines *)

Lemma chunk_text_default (text : str) :
  Processor.chunk_text (S (length (split text))) text 800 120
  = Some (default_chunks text).
Proof.
  unfold default_chunks. rewrite chunk_text_ranges.
  destruct (chunk_ranges_total (S (length (split text)))
              (len (split text)) 800 120 0) as [rs ->];
    [lia|unfold len; lia|reflexivity].
Qed.

Lemma logs_refl {D : Type} (w : world D) : logs w w [].
Proof. unfold logs. rewrite app_nil_r. auto. Qed.

(** *** Logs of calls *)

Lemma call_eqb_eq (a b : call) : call_eqb a b = true <-> a = b.
Proof.
  destruct a as [f n], b as [g m]. cbn.
  rewrite andb_true_iff, String.eqb_eq, Z.eqb_eq.
  split; [intros [-> ->]; reflexivity|intros [= -> ->]; auto].
Qed.

Lemma count_call_app (c : call) (a b : list call) :
  count_call c (a ++ b) = (count_call c a + count_call c b)%nat.
Proof. unfold count_call. rewrite filter_app, length_app. reflexivity. Qed.

Lemma count_call_absent (c : call) (l : list call) :
  ~ In c l -> count_call c l = 0%nat.
Proof.
  unfold count_call. induction l as [|x l IH]; intros Hin; [reflexivity|].
  cbn [filter]. destruct (call_eqb c x) eqn:Hx.
  - apply call_eqb_eq in Hx. subst x. exfalso. apply Hin. left. reflexivity.
  - apply IH. intros Hl. apply Hin. right. exact Hl.
Qed.

Lemma count_call_nodup (c : call) (l : list call) :
  NoDup l -> In c l -> count_call c l = 1%nat.
Proof.
  induction l as [|x l IH]; intros Hnd Hin; [destruct Hin|].
  inversion Hnd as [|? ? Hx Hl]; subst.
  change (x :: l) with ([x] ++ l). rewrite count_call_app.
  destruct Hin as [->|Hin].
  - rewrite (count_call_absent c l Hx). unfold count_call. cbn.
    destruct (call_eqb c c) eqn:Hc; [reflexivity|].
    assert (call_eqb c c = true) by (apply call_eqb_eq; reflexivity). congruence.
  - rewrite (IH Hl Hin). unfold count_call. cbn.
    destruct (call_eqb c x) eqn:Hc; [|reflexivity].
    apply call_eqb_eq in Hc. subst x. contradiction.
Qed.

Section CallLogs.
Context {P : Type}.
Variable pn : P -> Z.
Variable k : P -> nat.
Variable header : Z -> list call.
(** The calls made for a page before its chunks are encoded bear the
    number of the page, and none is a call of [encode]. *)
Hypothesis header_calls :
  forall n c, In c (header n) ->
  exists f, c = Call f n /\ f <> "encode"%string.
Hypothesis header_nodup : forall n, NoDup (header n).

Lemma header_prefix (A R l1 l2 : list call) (c : call) :
  A ++ R = l1 ++ c :: l2 -> ~ In c A -> exists t, l1 = A ++ t.
Proof.
  revert l1. induction A as [|a A IH]; intros l1 Heq Hin;
    [exists l1; reflexivity|].
  destruct l1 as [|x l1].
  - cbn [app] in Heq. injection Heq as Ha _. exfalso. apply Hin. left. exact Ha.
  - cbn [app] in Heq. injection Heq as -> Heq.
    destruct (IH l1 Heq) as [t ->]; [intros Hc; apply Hin; right; exact Hc|].
    exists t. reflexivity.
Qed.

(** Every call of [encode] for page [n] comes after the whole header
    of page [n]. *)
Lemma header_precedes (pages : list P) :
  forall l1 l2 n,
    flat_map (page_log pn k header) pages = l1 ++ Call "encode" n :: l2 ->
    header n <> [] -> incl (header n) l1.
Proof.
  induction pages as [|p pages IH]; intros l1 l2 n Heq Hne.
  - destruct l1; discriminate.
  - cbn [flat_map] in Heq. apply app_eq_app in Heq as [l [[Hp Hrest]|[Hl1 Hrest]]].
    + destruct l as [|c l].
      * cbn in Hrest. symmetry in Hrest.
        pose proof (IH [] l2 n Hrest Hne) as Hincl.
        destruct (header n) as [|c hs]; [congruence|].
        destruct (Hincl c (or_introl eq_refl)).
      * cbn in Hrest. injection Hrest as <- _.
        unfold page_log in Hp.
        assert (Hnot : ~ In (Call "encode" n) (header (pn p))).
        { intros Hin. destruct (header_calls _ _ Hin) as (f & [= <- _] & Hf).
          congruence. }
        destruct (header_prefix _ _ _ _ _ Hp Hnot) as [t ->].
        assert (Hin : In (Call "encode" n) (repeat (Call "encode" (pn p)) (k p))).
        { assert (Hin : In (Call "encode" n)
                          (header (pn p) ++ repeat (Call "encode" (pn p)) (k p)))
            by (rewrite Hp; apply in_or_app; right; left; reflexivity).
          apply in_app_or in Hin as [Hin|Hin]; [contradiction|exact Hin]. }
        apply repeat_spec in Hin. injection Hin as ->.
        intros c Hc. apply in_or_app. left. exact Hc.
    + subst l1. intros c Hc. apply in_or_app. right.
      exact (IH l l2 n Hrest Hne c Hc).
Qed.

Lemma count_other_page (c : call) (f : string) (n : Z) (p : P) :
  c = Call f n -> f <> "encode"%string -> pn p <> n ->
  count_call c (page_log pn k header p) = 0%nat.
Proof.
  intros -> Hf Hn. apply count_call_absent. unfold page_log. intros Hin.
  apply in_app_or in Hin as [Hin|Hin].
  - destruct (header_calls _ _ Hin) as (g & [= _ ->] & _). congruence.
  - apply repeat_spec in Hin. congruence.
Qed.

Lemma count_same_page (c : call) (p : P) :
  In c (header (pn p)) -> count_call c (page_log pn k header p) = 1%nat.
Proof.
  intros Hin. unfold page_log. rewrite count_call_app.
  rewrite (count_call_nodup c _ (header_nodup _) Hin).
  rewrite count_call_absent; [reflexivity|].
  intros Hr. apply repeat_spec in Hr. subst c.
  destruct (header_calls _ _ Hin) as (f & [= <-] & Hf). congruence.
Qed.

(** With distinct page numbers, every call of the header of a page
    occurs exactly once in the log of the run. *)
Lemma header_once (pages : list P) :
  NoDup (map pn pages) ->
  forall p c, In p pages -> In c (header (pn p)) ->
  count_call c (flat_map (page_log pn k header) pages) = 1%nat.
Proof.
  induction pages as [|q pages IH]; intros Hnd p c Hp Hc; [destruct Hp|].
  cbn [map] in Hnd. inversion Hnd as [|? ? Hq Hrest]; subst.
  cbn [flat_map]. rewrite count_call_app.
  destruct (header_calls _ _ Hc) as (f & Hcf & Hf).
  destruct Hp as [->|Hp].
  - rewrite (count_same_page c p Hc).
    rewrite count_call_absent; [reflexivity|].
    intros Hin. apply in_flat_map in Hin as (r & Hr & Hin).
    apply Hq. replace (pn p) with (pn r); [apply in_map, Hr|].
    unfold page_log in Hin. apply in_app_or in Hin as [Hin|Hin].
    + destruct (header_calls _ _ Hin) as (g & Hg & _). congruence.
    + apply repeat_spec in Hin. congruence.
  - rewrite (count_other_page c f (pn p) q Hcf Hf).
    + rewrite (IH Hrest p c Hp Hc). reflexivity.
    + intros Heq. apply Hq. rewrite Heq. apply in_map, Hp.
Qed.
End CallLogs.

(** *** The run of process_manual *)

Section ProcessorRun.
Context `{UnicodeTables} `{Collaborators}.
Variable index_name : str.
Variable manual : str.

Lemma processor_chunks_loop (p : Processor.page) (all : list str) :
  forall (chunks : list str) (documents : list Processor.document)
         (w : world Processor.document),
    incl chunks all ->
    exists new w',
      Processor.chunks_loop index_name p
        (Processor.extract_metadata (Processor.text p)) manual
        chunks documents w = Some (documents ++ new, w') /\
      map Processor.content new = chunks /\
      Forall (fun d => processor_meta_of manual p d
                       /\ In (Processor.content d) all) new /\
      logs w w' (repeat (Call "encode" (Processor.page_no p)) (length chunks)).
Proof.
  induction chunks as [|chunk chunks IH]; intros documents w Hincl.
  - exists [], w. rewrite app_nil_r.
    repeat split; [constructor|apply logs_refl].
  - cbn [Processor.chunks_loop]. unfold bind at 1. unfold logged at 1.
    unfold bind at 1. unfold fresh_id at 1.
    match goal with
    | |- context [Processor.chunks_loop _ _ _ _ chunks (documents ++ [?d]) ?w1] =>
        destruct (IH (documents ++ [d]) w1) as (new & w' & Hrun & Hc & Hall & Hlog);
          [intros x Hx; apply Hincl; right; exact Hx|];
          exists (d :: new), w'
    end.
    rewrite Hrun, <- app_assoc. split; [reflexivity|].
    split; [cbn [map Processor.content]; rewrite Hc; reflexivity|].
    split.
    + constructor; [|exact Hall]. split.
      * unfold processor_meta_of. cbn. repeat split.
      * cbn. apply Hincl. left. reflexivity.
    + destruct Hlog as (Ho & Hi & Hb & Hcalls). unfold logs.
      rewrite Ho, Hi, Hb, Hcalls. cbn. rewrite <- app_assoc. auto.
Qed.

Lemma processor_pages_loop :
  forall (pages : list Processor.page) (documents : list Processor.document)
         (w : world Processor.document),
    exists new w',
      Processor.pages_loop index_name manual pages documents w
        = Some (documents ++ new, w') /\
      Forall (fun d => exists p,
                  In p pages /\ processor_meta_of manual p d /\
                  In (Processor.content d) (default_chunks (Processor.text p)))
             new /\
      map Processor.d_page new
        = flat_map (fun p => repeat (Processor.page_no p)
                               (length (default_chunks (Processor.text p))))
                   pages /\
      logs w w' (processor_calls pages).
Proof.
  induction pages as [|p pages IH]; intros documents w.
  - exists [], w. rewrite app_nil_r.
    repeat split; [constructor|apply logs_refl].
  - cbn [Processor.pages_loop]. unfold bind at 1. unfold logged at 1.
    unfold bind at 1. unfold logged at 1. unfold bind at 1.
    rewrite chunk_text_default. unfold lift at 1. unfold bind at 1.
    match goal with
    | |- context [Processor.chunks_loop _ _ _ _ _ documents ?w1] =>
        destruct (processor_chunks_loop p (default_chunks (Processor.text p))
                    (default_chunks (Processor.text p)) documents w1
                    (incl_refl _))
          as (new1 & w1' & Hrun1 & Hc1 & Hall1 & Hlog1)
    end.
    rewrite Hrun1.
    destruct (IH (documents ++ new1) w1') as (new2 & w' & Hrun2 & Hall2 & Hp2 & Hlog2).
    exists (new1 ++ new2), w'. rewrite Hrun2, <- app_assoc.
    split; [reflexivity|]. split; [|split].
    + apply Forall_app. split.
      * eapply Forall_impl; [|exact Hall1]. intros d [Hm Hin].
        exists p. split; [left; reflexivity|]. split; assumption.
      * eapply Forall_impl; [|exact Hall2]. intros d (q & Hq & Hm).
        exists q. split; [right; exact Hq|exact Hm].
    + rewrite map_app, Hp2. cbn [flat_map]. f_equal.
      rewrite <- Hc1, length_map.
      clear - Hall1. induction Hall1 as [|d l [[Hpage _] _] _ IHl]; [reflexivity|].
      cbn. rewrite Hpage, IHl. reflexivity.
    + destruct Hlog1 as (Ho1 & Hi1 & Hb1 & Hcalls1).
      destruct Hlog2 as (Ho2 & Hi2 & Hb2 & Hcalls2). unfold logs.
      rewrite Ho2, Hi2, Hb2, Hcalls2, Ho1, Hi1, Hb1, Hcalls1. cbn.
      unfold processor_calls. cbn [flat_map]. unfold processor_page_calls.
      rewrite <- !app_assoc. auto.
Qed.

(** A whole run: the value returned, the single bulk request, the three
    lines printed and the calls logged. *)
Lemma processor_run (pdf_path : str) (raw : list (option str))
      (w : world Processor.document) :
  exists docs w',
    Processor.process_manual index_name pdf_path manual raw w
      = Some (PyNone, w') /\
    bulk_calls w' = bulk_calls w ++ [docs] /\
    stdout w' = stdout w ++
      [py "Processing: " ++ pdf_path;
       Processor.check_mark ++ py " Extracted "
         ++ dec (length (Processor.parse_pdf raw)) ++ py " pages";
       Processor.check_mark ++ py " Indexed " ++ dec (length docs)
         ++ py " chunks"] /\
    calls w' = calls w ++ processor_calls (Processor.parse_pdf raw) /\
    Forall (fun d => exists p,
                In p (Processor.parse_pdf raw) /\ processor_meta_of manual p d /\
                In (Processor.content d) (default_chunks (Processor.text p)))
           docs /\
    map Processor.d_page docs
      = flat_map (fun p => repeat (Processor.page_no p)
                             (length (default_chunks (Processor.text p))))
                 (Processor.parse_pdf raw).
Proof.
  unfold Processor.process_manual. unfold bind at 1. unfold print at 1.
  unfold bind at 1. unfold print at 1. unfold bind at 1.
  match goal with
  | |- context [Processor.pages_loop _ _ _ [] ?w1] =>
      destruct (processor_pages_loop (Processor.parse_pdf raw) [] w1)
        as (docs & w' & Hrun & Hall & Hpages & Ho & Hi & Hb & Hcalls)
  end.
  cbn [app] in Hrun. rewrite Hrun.
  eexists docs, _. split; [reflexivity|].
  cbn [bulk_calls stdout calls]. rewrite Ho, Hb, Hcalls. cbn [bulk_calls stdout calls].
  rewrite <- !app_assoc. repeat split; assumption.
Qed.
End ProcessorRun.

(** *** The run of index_pdf *)

Section IngestRun.
Context `{UnicodeTables} `{Collaborators}.
Variable manual : str.

Lemma ingest_chunk_text_default (text : str) :
  Ingest.chunk_text (S (length (split text))) text 800 120
  = Some (default_chunks text).
Proof. exact (chunk_text_default text). Qed.

Lemma ingest_chunks_loop (p : Ingest.page) (all : list str) :
  forall (chunks : list str) (actions : list Ingest.document) (chunk_count : Z)
         (w : world Ingest.document),
    incl chunks all ->
    exists new w',
      Ingest.chunks_loop p (Ingest.infer_section (Ingest.text p))
        (Ingest.infer_chapter (Ingest.text p))
        (Ingest.infer_part_number (Ingest.text p)) manual
        chunks actions chunk_count w
        = Some ((actions ++ new, chunk_count + len new), w') /\
      map Ingest.content new = chunks /\
      Forall (fun d => ingest_meta_of manual p d /\ In (Ingest.content d) all)
             new /\
      logs w w' (repeat (Call "encode" (Ingest.page_no p)) (length chunks)).
Proof.
  induction chunks as [|chunk chunks IH]; intros actions chunk_count w Hincl.
  - exists [], w. rewrite app_nil_r. unfold len. cbn [length Z.of_nat].
    rewrite Z.add_0_r. repeat split; [constructor|apply logs_refl].
  - cbn [Ingest.chunks_loop]. unfold bind at 1. unfold logged at 1.
    unfold bind at 1. unfold fresh_id at 1.
    match goal with
    | |- context [Ingest.chunks_loop _ _ _ _ _ chunks (actions ++ [?d]) ?c ?w1] =>
        destruct (IH (actions ++ [d]) c w1) as (new & w' & Hrun & Hc & Hall & Hlog);
          [intros x Hx; apply Hincl; right; exact Hx|];
          exists (d :: new), w'
    end.
    rewrite Hrun, <- app_assoc. split.
    + do 3 f_equal. unfold len. cbn [length]. lia.
    + split; [cbn [map Ingest.content]; rewrite Hc; reflexivity|].
      split.
      * constructor; [|exact Hall]. split.
        -- unfold ingest_meta_of. cbn. repeat split.
        -- cbn. apply Hincl. left. reflexivity.
      * destruct Hlog as (Ho & Hi & Hb & Hcalls). unfold logs.
        rewrite Ho, Hi, Hb, Hcalls. cbn. rewrite <- app_assoc. auto.
Qed.

Lemma ingest_pages_loop :
  forall (pages : list Ingest.page) (actions : list Ingest.document)
         (chunk_count : Z) (w : world Ingest.document),
    exists new w',
      Ingest.pages_loop manual pages actions chunk_count w
        = Some ((actions ++ new, chunk_count + len new), w') /\
      Forall (fun d => exists p,
                  In p pages /\ ingest_meta_of manual p d /\
                  In (Ingest.content d) (default_chunks (Ingest.text p)))
             new /\
      map Ingest.d_page new
        = flat_map (fun p => repeat (Ingest.page_no p)
                               (length (default_chunks (Ingest.text p))))
                   pages /\
      logs w w' (ingest_calls pages).
Proof.
  induction pages as [|p pages IH]; intros actions chunk_count w.
  - exists [], w. rewrite app_nil_r. unfold len. cbn [length Z.of_nat].
    rewrite Z.add_0_r. repeat split; [constructor|apply logs_refl].
  - cbn [Ingest.pages_loop].
    unfold bind at 1. unfold logged at 1. unfold bind at 1. unfold logged at 1.
    unfold bind at 1. unfold logged at 1. unfold bind at 1. unfold logged at 1.
    unfold bind at 1.
    rewrite ingest_chunk_text_default. unfold lift at 1. unfold bind at 1.
    match goal with
    | |- context [Ingest.chunks_loop _ _ _ _ _ _ actions chunk_count ?w1] =>
        destruct (ingest_chunks_loop p (default_chunks (Ingest.text p))
                    (default_chunks (Ingest.text p)) actions chunk_count w1
                    (incl_refl _))
          as (new1 & w1' & Hrun1 & Hc1 & Hall1 & Hlog1)
    end.
    rewrite Hrun1. cbn [fst snd].
    destruct (IH (actions ++ new1) (chunk_count + len new1) w1')
      as (new2 & w' & Hrun2 & Hall2 & Hp2 & Hlog2).
    exists (new1 ++ new2), w'. rewrite Hrun2, <- app_assoc.
    split; [|split; [|split]].
    + do 3 f_equal. unfold len. rewrite length_app. lia.
    + apply Forall_app. split.
      * eapply Forall_impl; [|exact Hall1]. intros d [Hm Hin].
        exists p. split; [left; reflexivity|]. split; assumption.
      * eapply Forall_impl; [|exact Hall2]. intros d (q & Hq & Hm).
        exists q. split; [right; exact Hq|exact Hm].
    + rewrite map_app, Hp2. cbn [flat_map]. f_equal.
      rewrite <- Hc1, length_map.
      clear - Hall1. induction Hall1 as [|d l [[Hpage _] _] _ IHl]; [reflexivity|].
      cbn. rewrite Hpage, IHl. reflexivity.
    + destruct Hlog1 as (Ho1 & Hi1 & Hb1 & Hcalls1).
      destruct Hlog2 as (Ho2 & Hi2 & Hb2 & Hcalls2). unfold logs.
      rewrite Ho2, Hi2, Hb2, Hcalls2, Ho1, Hi1, Hb1, Hcalls1. cbn.
      unfold ingest_calls. cbn [flat_map]. unfold ingest_page_calls.
      rewrite <- !app_assoc. auto.
Qed.

(** A whole run: the value returned, the single bulk request, the four
    lines printed and the calls logged. *)
Lemma ingest_run (pdf_path : str) (raw : list (option str))
      (w : world Ingest.document) :
  exists docs w',
    Ingest.index_pdf pdf_path manual raw w = Some (PyNone, w') /\
    bulk_calls w' = bulk_calls w ++ [docs] /\
    stdout w' = stdout w ++
      [(if index_exists w
        then py "Index '" ++ Ingest.INDEX_NAME ++ py "' already exists"
        else py "Created index '" ++ Ingest.INDEX_NAME
               ++ py "' with hybrid search mappings");
       py "Processing PDF: " ++ pdf_path;
       py "Extracted " ++ dec (length (Ingest.extract_text_by_page raw))
         ++ py " pages";
       Ingest.check_mark ++ py " Indexed " ++ dec (length docs)
         ++ py " chunks from "
         ++ dec (length (Ingest.extract_text_by_page raw)) ++ py " pages"] /\
    calls w' = calls w ++ ingest_calls (Ingest.extract_text_by_page raw) /\
    Forall (fun d => exists p,
                In p (Ingest.extract_text_by_page raw) /\
                ingest_meta_of manual p d /\
                In (Ingest.content d) (default_chunks (Ingest.text p)))
           docs /\
    map Ingest.d_page docs
      = flat_map (fun p => repeat (Ingest.page_no p)
                             (length (default_chunks (Ingest.text p))))
                 (Ingest.extract_text_by_page raw).
Proof.
  unfold Ingest.index_pdf. unfold bind at 1.
  assert (Hcreate : exists w0,
             Ingest.create_index w = Some (tt, w0) /\
             bulk_calls w0 = bulk_calls w /\ calls w0 = calls w /\
             stdout w0 = stdout w ++
               [if index_exists w
                then py "Index '" ++ Ingest.INDEX_NAME ++ py "' already exists"
                else py "Created index '" ++ Ingest.INDEX_NAME
                       ++ py "' with hybrid search mappings"]).
  { unfold Ingest.create_index, print.
    destruct (index_exists w); eexists; (split; [reflexivity|]); cbn; auto. }
  destruct Hcreate as (w0 & -> & Hb0 & Hc0 & Ho0).
  unfold bind at 1. unfold print at 1. unfold bind at 1. unfold print at 1.
  unfold bind at 1.
  match goal with
  | |- context [Ingest.pages_loop _ _ [] 0 ?w1] =>
      destruct (ingest_pages_loop (Ingest.extract_text_by_page raw) [] 0 w1)
        as (docs & w' & Hrun & Hall & Hpages & Ho & Hi & Hb & Hcalls)
  end.
  cbn [app] in Hrun. rewrite Hrun.
  eexists docs, _. split; [reflexivity|].
  cbn [bulk_calls stdout calls fst snd].
  rewrite Ho, Hb, Hcalls. cbn [bulk_calls stdout calls].
  rewrite Hb0, Hc0, Ho0. unfold Ingest.decZ. rewrite Z.add_0_l.
  unfold len. rewrite Nat2Z.id. rewrite <- !app_assoc.
  repeat split; assumption.
Qed.
End IngestRun.

(** *** Pages and their numbers *)

Lemma nodup_map_eq {A B : Type} (f : A -> B) (l : list A) :
  NoDup (map f l) ->
  forall x y, In x l -> In y l -> f x = f y -> x = y.
Proof.
  induction l as [|a l IH]; intros Hnd x y Hx Hy Hf; [destruct Hx|].
  cbn [map] in Hnd. inversion Hnd as [|? ? Ha Hl]; subst.
  destruct Hx as [->|Hx], Hy as [->|Hy].
  - reflexivity.
  - exfalso. apply Ha. rewrite Hf. apply in_map, Hy.
  - exfalso. apply Ha. rewrite <- Hf. apply in_map, Hx.
  - exact (IH Hl x y Hx Hy Hf).
Qed.

Section Pages.
Context `{UnicodeTables}.

(** A page kept by [parse_pdf] is a page of the reader whose extracted
    text is not empty; it carries its position and its normalised text. *)
Lemma parse_pages_source (raw : list (option str)) :
  forall (i : Z) (p : Processor.page),
    In p (Processor.parse_pages i raw) ->
    i <= Processor.page_no p /\
    exists t, nth_error raw (Z.to_nat (Processor.page_no p - i)) = Some (Some t)
              /\ t <> [] /\ Processor.text p = normalize t.
Proof.
  induction raw as [|t raw IH]; intros i p Hp; [destruct Hp|].
  cbn [Processor.parse_pages] in Hp.
  assert (Hlater : In p (Processor.parse_pages (i + 1) raw) ->
                   i <= Processor.page_no p /\
                   exists t0, nth_error (t :: raw) (Z.to_nat (Processor.page_no p - i))
                                = Some (Some t0)
                              /\ t0 <> [] /\ Processor.text p = normalize t0).
  { intros Hin. destruct (IH _ _ Hin) as (Hle & t0 & Hnth & Hne & Htext).
    split; [lia|]. exists t0.
    replace (Z.to_nat (Processor.page_no p - i))
      with (S (Z.to_nat (Processor.page_no p - (i + 1)))) by lia.
    auto. }
  destruct t as [[|c t]|]; [auto| |auto].
  destruct Hp as [<-|Hp]; [|auto].
  cbn [Processor.page_no Processor.text]. split; [lia|].
  exists (c :: t). rewrite Z.sub_diag.
  split; [reflexivity|split; [discriminate|reflexivity]].
Qed.

Lemma parse_pages_nodup (raw : list (option str)) :
  forall i, NoDup (map Processor.page_no (Processor.parse_pages i raw)).
Proof.
  induction raw as [|t raw IH]; intros i; [constructor|].
  cbn [Processor.parse_pages].
  destruct t as [[|c t]|]; [apply IH| |apply IH].
  cbn [map Processor.page_no]. constructor; [|apply IH].
  intros Hin. apply in_map_iff in Hin as (q & Hq & Hin).
  apply parse_pages_source in Hin as [Hle _]. lia.
Qed.

(** A page kept by [extract_text_by_page] is a page of the reader whose
    normalised text is not empty. *)
Lemma extract_pages_source (raw : list (option str)) :
  forall (i : Z) (p : Ingest.page),
    In p (Ingest.extract_pages i raw) ->
    i <= Ingest.page_no p /\
    exists t, nth_error raw (Z.to_nat (Ingest.page_no p - i)) = Some t
              /\ Ingest.text p
                 = normalize (match t with Some x => x | None => [] end)
              /\ Ingest.text p <> [].
Proof.
  induction raw as [|t raw IH]; intros i p Hp; [destruct Hp|].
  cbn [Ingest.extract_pages] in Hp.
  assert (Hlater : In p (Ingest.extract_pages (i + 1) raw) ->
                   i <= Ingest.page_no p /\
                   exists t0, nth_error (t :: raw) (Z.to_nat (Ingest.page_no p - i))
                                = Some t0
                              /\ Ingest.text p
                                 = normalize (match t0 with Some x => x | None => [] end)
                              /\ Ingest.text p <> []).
  { intros Hin. destruct (IH _ _ Hin) as (Hle & t0 & Hnth & Htext & Hne).
    split; [lia|]. exists t0.
    replace (Z.to_nat (Ingest.page_no p - i))
      with (S (Z.to_nat (Ingest.page_no p - (i + 1)))) by lia.
    auto. }
  destruct (normalize (match t with Some x => x | None => [] end))
    as [|c text] eqn:Hnorm; [auto|].
  destruct Hp as [<-|Hp]; [|auto].
  cbn [Ingest.page_no Ingest.text]. split; [lia|].
  exists t. rewrite Z.sub_diag.
  split; [reflexivity|split; [symmetry; exact Hnorm|discriminate]].
Qed.

Lemma extract_pages_nodup (raw : list (option str)) :
  forall i, NoDup (map Ingest.page_no (Ingest.extract_pages i raw)).
Proof.
  induction raw as [|t raw IH]; intros i; [constructor|].
  cbn [Ingest.extract_pages].
  destruct (normalize (match t with Some x => x | None => [] end));
    [apply IH|].
  cbn [map Ingest.page_no]. constructor; [|apply IH].
  intros Hin. apply in_map_iff in Hin as (q & Hq & Hin).
  apply extract_pages_source in Hin as [Hle _]. lia.
Qed.
End Pages.

Lemma processor_header_calls (n : Z) (c : call) :
  In c (processor_header n) -> exists f, c = Call f n /\ f <> "encode"%string.
Proof.
  intros [<-|[<-|[]]]; eexists; (split; [reflexivity|discriminate]).
Qed.

Lemma processor_header_nodup (n : Z) : NoDup (processor_header n).
Proof.
  repeat constructor; cbn; intuition discriminate.
Qed.

Lemma ingest_header_calls (n : Z) (c : call) :
  In c (ingest_header n) -> exists f, c = Call f n /\ f <> "encode"%string.
Proof.
  intros [<-|[<-|[<-|[<-|[]]]]]; eexists; (split; [reflexivity|discriminate]).
Qed.

Lemma ingest_header_nodup (n : Z) : NoDup (ingest_header n).
Proof.
  repeat constructor; cbn; intuition discriminate.
Qed.

(** ** C8: metadata once per page *)

(** C8: in both scripts a run returns after one bulk request; every
    document of the request carries the metadata computed from the text
    of its page, so that two documents of the same page carry the same
    section, chapter and part number; in the log of the run, each
    metadata function is called exactly once for every page, and every
    call of the embedding model for a chunk of a page comes after the
    metadata calls of that page. *)
Theorem C8_metadata_once_per_page `{UnicodeTables} `{Collaborators}
  (index_name pdf_path manual : str) (raw : list (option str)) :
  (forall w, exists docs w',
      Processor.process_manual index_name pdf_path manual raw w
        = Some (PyNone, w') /\
      bulk_calls w' = bulk_calls w ++ [docs] /\
      calls w' = calls w ++ processor_calls (Processor.parse_pdf raw) /\
      Forall (fun d => exists p, In p (Processor.parse_pdf raw)
                                 /\ processor_meta_of manual p d) docs /\
      (forall d1 d2, In d1 docs -> In d2 docs ->
         Processor.d_page d1 = Processor.d_page d2 ->
         Processor.d_section d1 = Processor.d_section d2 /\
         Processor.d_ata_chapter d1 = Processor.d_ata_chapter d2 /\
         Processor.d_part_number d1 = Processor.d_part_number d2)) /\
  (forall p, In p (Processor.parse_pdf raw) ->
     count_call (Call "extract_metadata" (Processor.page_no p))
                (processor_calls (Processor.parse_pdf raw)) = 1%nat) /\
  (forall l1 l2 n,
     processor_calls (Processor.parse_pdf raw) = l1 ++ Call "encode" n :: l2 ->
     In (Call "extract_metadata" n) l1) /\
  (forall w, exists docs w',
      Ingest.index_pdf pdf_path manual raw w = Some (PyNone, w') /\
      bulk_calls w' = bulk_calls w ++ [docs] /\
      calls w' = calls w ++ ingest_calls (Ingest.extract_text_by_page raw) /\
      Forall (fun d => exists p, In p (Ingest.extract_text_by_page raw)
                                 /\ ingest_meta_of manual p d) docs /\
      (forall d1 d2, In d1 docs -> In d2 docs ->
         Ingest.d_page d1 = Ingest.d_page d2 ->
         Ingest.d_section d1 = Ingest.d_section d2 /\
         Ingest.d_chapter d1 = Ingest.d_chapter d2 /\
         Ingest.d_part_number d1 = Ingest.d_part_number d2)) /\
  (forall p, In p (Ingest.extract_text_by_page raw) ->
     count_call (Call "infer_section" (Ingest.page_no p))
                (ingest_calls (Ingest.extract_text_by_page raw)) = 1%nat /\
     count_call (Call "infer_chapter" (Ingest.page_no p))
                (ingest_calls (Ingest.extract_text_by_page raw)) = 1%nat /\
     count_call (Call "infer_part_number" (Ingest.page_no p))
                (ingest_calls (Ingest.extract_text_by_page raw)) = 1%nat) /\
  (forall l1 l2 n,
     ingest_calls (Ingest.extract_text_by_page raw) = l1 ++ Call "encode" n :: l2 ->
     In (Call "infer_section" n) l1 /\ In (Call "infer_chapter" n) l1 /\
     In (Call "infer_part_number" n) l1).
Proof.
  pose proof (parse_pages_nodup raw 1) as Hnd1.
  pose proof (extract_pages_nodup raw 1) as Hnd2.
  fold (Processor.parse_pdf raw) in Hnd1.
  fold (Ingest.extract_text_by_page raw) in Hnd2.
  split; [|split; [|split; [|split; [|split]]]].
  - intros w.
    destruct (processor_run index_name manual pdf_path raw w)
      as (docs & w' & Hrun & Hb & _ & Hc & Hall & _).
    exists docs, w'. repeat (split; [assumption|]).
    assert (Hmeta : Forall (fun d => exists p, In p (Processor.parse_pdf raw)
                                   /\ processor_meta_of manual p d) docs).
    { eapply Forall_impl; [|exact Hall]. intros d (p & Hp & Hm & _). eauto. }
    split; [exact Hmeta|].
    intros d1 d2 H1 H2 Hpage. rewrite Forall_forall in Hmeta.
    destruct (Hmeta d1 H1) as (p1 & Hp1 & Hn1 & Hs1 & Ha1 & Hq1 & _).
    destruct (Hmeta d2 H2) as (p2 & Hp2 & Hn2 & Hs2 & Ha2 & Hq2 & _).
    assert (p1 = p2) as <-
        by (apply (nodup_map_eq _ _ Hnd1); [assumption|assumption|congruence]).
    repeat split; congruence.
  - intros p Hp.
    apply (header_once Processor.page_no
             (fun p => length (default_chunks (Processor.text p)))
             processor_header processor_header_calls processor_header_nodup
             _ Hnd1 p _ Hp).
    left. reflexivity.
  - intros l1 l2 n Heq.
    apply (header_precedes Processor.page_no
             (fun p => length (default_chunks (Processor.text p)))
             processor_header processor_header_calls _ l1 l2 n Heq);
      [discriminate|left; reflexivity].
  - intros w.
    destruct (ingest_run manual pdf_path raw w)
      as (docs & w' & Hrun & Hb & _ & Hc & Hall & _).
    exists docs, w'. repeat (split; [assumption|]).
    assert (Hmeta : Forall (fun d => exists p, In p (Ingest.extract_text_by_page raw)
                                   /\ ingest_meta_of manual p d) docs).
    { eapply Forall_impl; [|exact Hall]. intros d (p & Hp & Hm & _). eauto. }
    split; [exact Hmeta|].
    intros d1 d2 H1 H2 Hpage. rewrite Forall_forall in Hmeta.
    destruct (Hmeta d1 H1) as (p1 & Hp1 & Hn1 & Hs1 & Ha1 & Hq1 & _).
    destruct (Hmeta d2 H2) as (p2 & Hp2 & Hn2 & Hs2 & Ha2 & Hq2 & _).
    assert (p1 = p2) as <-
        by (apply (nodup_map_eq _ _ Hnd2); [assumption|assumption|congruence]).
    repeat split; congruence.
  - intros p Hp.
    pose proof (header_once Ingest.page_no
                  (fun p => length (default_chunks (Ingest.text p)))
                  ingest_header ingest_header_calls ingest_header_nodup
                  _ Hnd2 p) as Honce.
    repeat split; apply Honce; try exact Hp; cbn; auto.
  - intros l1 l2 n Heq.
    pose proof (header_precedes Ingest.page_no
                  (fun p => length (default_chunks (Ingest.text p)))
                  ingest_header ingest_header_calls _ l1 l2 n Heq
                  ltac:(discriminate)) as Hincl.
    repeat split; apply Hincl; cbn; auto.
Qed.

(** ** C9: what a run hands back *)

(** C9, as stated, fails: on three pages of which the second extracts to
    nothing, both entry points return [None], not a pair of counts; the
    documents come from pages 1 and 3, and the lines printed give the
    number of chunks (and, in one script, of pages kept), never a number
    of pages skipped. *)
Lemma C9_counterexample :
  option_map fst
    (@Ingest.index_pdf ascii_tables toy_collaborators
       (py "manual.pdf") (py "APU_001") three_pages fresh_world)
    = Some PyNone /\
  option_map fst
    (@Processor.process_manual ascii_tables toy_collaborators
       (py "aviation_manuals") (py "manual.pdf") (py "APU_001") three_pages
       fresh_world)
    = Some PyNone /\
  PyNone <> PyPair (PyInt 2) (PyInt 1) /\
  option_map (fun r => map (map Ingest.d_page) (bulk_calls (snd r)))
    (@Ingest.index_pdf ascii_tables toy_collaborators
       (py "manual.pdf") (py "APU_001") three_pages fresh_world)
    = Some [[1; 3]] /\
  option_map (fun r => stdout (snd r))
    (@Ingest.index_pdf ascii_tables toy_collaborators
       (py "manual.pdf") (py "APU_001") three_pages fresh_world)
    = Some [py "Created index 'aviation_manuals' with hybrid search mappings";
            py "Processing PDF: manual.pdf";
            py "Extracted 2 pages";
            Ingest.check_mark ++ py " Indexed 2 chunks from 2 pages"] /\
  option_map (fun r => stdout (snd r))
    (@Processor.process_manual ascii_tables toy_collaborators
       (py "aviation_manuals") (py "manual.pdf") (py "APU_001") three_pages
       fresh_world)
    = Some [py "Processing: manual.pdf";
            Processor.check_mark ++ py " Extracted 2 pages";
            Processor.check_mark ++ py " Indexed 2 chunks"].
Proof. repeat split; try (vm_compute; reflexivity). discriminate. Qed.

(** C9 (amended): both entry points return [None].  A run sends one bulk
    request whose documents all come from pages of the reader with a
    non-empty text, each holding a chunk of the normalised text of its
    page, and prints the number of chunks indexed (in
    ingest_aviation_manuals.py also the number of pages kept); no count
    of skipped pages is computed.  On three pages of which the second
    extracts to nothing, the documents are those of pages 1 and 3. *)
Theorem C9_run_returns_none `{UnicodeTables} `{Collaborators}
  (index_name pdf_path manual : str) :
  (forall raw w, exists docs w',
      Processor.process_manual index_name pdf_path manual raw w
        = Some (PyNone, w') /\
      bulk_calls w' = bulk_calls w ++ [docs] /\
      stdout w' = stdout w ++
        [py "Processing: " ++ pdf_path;
         Processor.check_mark ++ py " Extracted "
           ++ dec (length (Processor.parse_pdf raw)) ++ py " pages";
         Processor.check_mark ++ py " Indexed " ++ dec (length docs)
           ++ py " chunks"] /\
      Forall (fun d => exists t,
                  nth_error raw (Z.to_nat (Processor.d_page d - 1))
                    = Some (Some t) /\
                  t <> [] /\
                  In (Processor.content d) (default_chunks (normalize t)))
             docs) /\
  (forall raw w, exists docs w',
      Ingest.index_pdf pdf_path manual raw w = Some (PyNone, w') /\
      bulk_calls w' = bulk_calls w ++ [docs] /\
      stdout w' = stdout w ++
        [(if index_exists w
          then py "Index '" ++ Ingest.INDEX_NAME ++ py "' already exists"
          else py "Created index '" ++ Ingest.INDEX_NAME
                 ++ py "' with hybrid search mappings");
         py "Processing PDF: " ++ pdf_path;
         py "Extracted " ++ dec (length (Ingest.extract_text_by_page raw))
           ++ py " pages";
         Ingest.check_mark ++ py " Indexed " ++ dec (length docs)
           ++ py " chunks from "
           ++ dec (length (Ingest.extract_text_by_page raw)) ++ py " pages"] /\
      Forall (fun d => exists t,
                  nth_error raw (Z.to_nat (Ingest.d_page d - 1))
                    = Some (Some t) /\
                  normalize t <> [] /\
                  In (Ingest.content d) (default_chunks (normalize t)))
             docs) /\
  (forall w, exists d1 d3 w',
      Processor.process_manual index_name pdf_path manual three_pages w
        = Some (PyNone, w') /\
      bulk_calls w' = bulk_calls w ++ [[d1; d3]] /\
      Processor.d_page d1 = 1 /\ Processor.d_page d3 = 3) /\
  (forall w, exists d1 d3 w',
      Ingest.index_pdf pdf_path manual three_pages w = Some (PyNone, w') /\
      bulk_calls w' = bulk_calls w ++ [[d1; d3]] /\
      Ingest.d_page d1 = 1 /\ Ingest.d_page d3 = 3).
Proof.
  split; [|split; [|split]].
  - intros raw w.
    destruct (processor_run index_name manual pdf_path raw w)
      as (docs & w' & Hrun & Hb & Ho & _ & Hall & _).
    exists docs, w'. repeat (split; [assumption|]).
    eapply Forall_impl; [|exact Hall].
    intros d (p & Hp & (Hpage & _) & Hin).
    apply parse_pages_source in Hp as (_ & t & Hnth & Hne & Htext).
    exists t. rewrite Hpage. rewrite <- Htext. auto.
  - intros raw w.
    destruct (ingest_run manual pdf_path raw w)
      as (docs & w' & Hrun & Hb & Ho & _ & Hall & _).
    exists docs, w'. repeat (split; [assumption|]).
    eapply Forall_impl; [|exact Hall].
    intros d (p & Hp & (Hpage & _) & Hin).
    apply extract_pages_source in Hp as (_ & t & Hnth & Htext & Hne).
    destruct t as [t|]; [|rewrite Htext in Hne; contradiction].
    exists t. rewrite Hpage. rewrite <- Htext. auto.
  - intros w.
    destruct (processor_run index_name manual pdf_path three_pages w)
      as (docs & w' & Hrun & Hb & _ & _ & _ & Hpages).
    assert (Hlist : map Processor.d_page docs = [1; 3])
      by (rewrite Hpages; vm_compute; reflexivity).
    destruct docs as [|d1 [|d3 [|d docs]]]; try discriminate.
    injection Hlist as H1 H3.
    exists d1, d3, w'. auto.
  - intros w.
    destruct (ingest_run manual pdf_path three_pages w)
      as (docs & w' & Hrun & Hb & _ & _ & _ & Hpages).
    assert (Hlist : map Ingest.d_page docs = [1; 3])
      by (rewrite Hpages; vm_compute; reflexivity).
    destruct docs as [|d1 [|d3 [|d docs]]]; try discriminate.
    injection Hlist as H1 H3.
    exists d1, d3, w'. auto.
Qed.

(** * Further properties of the code *)

(** ** Chunking: coverage, sizes, and what the filter removes *)

Lemma py_slice_inside {A : Type} (l : list A) (a b : Z) :
  0 <= a <= b -> b <= len l ->
  py_slice l a b = firstn (Z.to_nat (b - a)) (skipn (Z.to_nat a) l).
Proof.
  unfold py_slice, slice_index, len. intros Hab Hb.
  destruct (Z.ltb_spec a 0); [lia|].
  destruct (Z.ltb_spec b 0); [lia|].
  rewrite !Z.min_l by lia. reflexivity.
Qed.

Lemma slice_member {A : Type} (l : list A) (i : nat) (x : A) (a b : Z) :
  nth_error l i = Some x -> 0 <= a <= Z.of_nat i -> Z.of_nat i < b ->
  In x (py_slice l a b).
Proof.
  intros Hx Ha Hb.
  assert (Hi : (i < length l)%nat) by (apply nth_error_Some; congruence).
  unfold py_slice, slice_index, len.
  destruct (Z.ltb_spec a 0); [lia|].
  destruct (Z.ltb_spec b 0); [lia|].
  rewrite (Z.min_l a) by lia.
  apply (nth_error_In _ (i - Z.to_nat a)).
  rewrite nth_error_firstn.
  destruct (Nat.ltb_spec (i - Z.to_nat a)
              (Z.to_nat (Z.min b (Z.of_nat (length l)) - a))) as [_|Hge]; [|lia].
  rewrite nth_error_skipn. replace (Z.to_nat a + (i - Z.to_nat a))%nat with i by lia.
  exact Hx.
Qed.

Lemma render_words (words : list str) (r : Z * Z) :
  Forall is_token words -> 0 <= fst r <= snd r -> snd r <= len words ->
  len (split (render words r)) = snd r - fst r.
Proof.
  intros Hw Hr Hb. rewrite split_render by exact Hw.
  apply slice_length; assumption.
Qed.

(** With a non-negative overlap every index from the cursor on lies in
    some range. *)
Lemma ranges_from_cover (L M O : Z) (rs : list (Z * Z)) :
  0 <= O -> forall s, ranges_from L M O s rs ->
  forall i, s <= i < L -> exists r, In r rs /\ fst r <= i < snd r.
Proof.
  intros HO. induction rs as [|r rs IH]; intros s Hrs i Hi.
  - cbn in Hrs. lia.
  - cbn [ranges_from] in Hrs.
    destruct Hrs as (Hs & Ha & Hb & [[Hend ->]|[Hlt Hrest]]).
    + exists r. split; [left; reflexivity|lia].
    + destruct (Z.lt_ge_cases i (snd r)) as [Hin|Hout].
      * exists r. split; [left; reflexivity|lia].
      * destruct (IH _ Hrest i ltac:(lia)) as (r' & Hr' & Hi').
        exists r'. split; [right; exact Hr'|exact Hi'].
Qed.

(** With an overlap of at least 50 words, on more than 50 words left,
    every range holds more than 50 words. *)
Lemma ranges_from_long (L M O : Z) (rs : list (Z * Z)) :
  50 <= O < M -> forall s, 0 <= s -> 50 < L - s -> ranges_from L M O s rs ->
  Forall (fun r => 0 <= fst r <= snd r /\ snd r <= L /\ 50 < snd r - fst r) rs.
Proof.
  intros HOM. induction rs as [|r rs IH]; intros s Hs HL Hrs; [constructor|].
  cbn [ranges_from] in Hrs.
  destruct Hrs as (HsL & Ha & Hb & Hrest). constructor; [lia|].
  destruct Hrest as [[_ ->]|[Hlt Hrest]]; [constructor|].
  apply (IH (snd r - O)); [lia|lia|exact Hrest].
Qed.

Lemma filter_all {A : Type} (f : A -> bool) (l : list A) :
  Forall (fun x => f x = true) l -> filter f l = l.
Proof.
  induction 1 as [|x l Hx _ IH]; [reflexivity|].
  cbn. rewrite Hx, IH. reflexivity.
Qed.

Lemma filter_none {A : Type} (f : A -> bool) (l : list A) :
  Forall (fun x => f x = false) l -> filter f l = [].
Proof.
  induction 1 as [|x l Hx _ IH]; [reflexivity|].
  cbn. rewrite Hx, IH. reflexivity.
Qed.

(** What a run of the loop gives, for a valid configuration. *)
Lemma chunk_loop_valid (text : str) (M O : Z) :
  O < M ->
  exists rs,
    ranges_from (len (split text)) M O 0 rs /\
    forall fuel, (length (split text) < fuel)%nat ->
      Processor.chunk_loop fuel (split text) M O 0 []
        = Some (map (render (split text)) rs) /\
      Processor.chunk_text fuel text M O
        = Some (filter (fun c => 50 <? len (split c))
                       (map (render (split text)) rs)).
Proof.
  intros HOM.
  destruct (chunk_ranges_total (S (length (split text))) (len (split text)) M O 0)
    as [rs Hrs]; [exact HOM|unfold len; lia|].
  exists rs. split; [exact (chunk_ranges_shape _ _ _ _ _ _ Hrs)|].
  intros fuel Hfuel.
  pose proof (chunk_ranges_more _ fuel _ _ _ _ _ Hrs ltac:(lia)) as Hmore.
  rewrite chunk_text_ranges, chunk_loop_ranges, Hmore. split; reflexivity.
Qed.

(** X1: for [0 <= O < M] no word is lost by the loop: every word of the
    text, at whatever index, lies in the word range of some generated
    chunk. *)
Theorem X1_every_word_is_in_a_generated_chunk (text : str) (M O : Z) :
  0 <= O < M ->
  exists chunks,
    (forall fuel, (length (split text) < fuel)%nat ->
       Processor.chunk_loop fuel (split text) M O 0 [] = Some chunks /\
       Ingest.chunk_loop fuel (split text) M O 0 [] = Some chunks) /\
    (forall (i : nat) (w : str),
       nth_error (split text) i = Some w ->
       exists a b,
         0 <= a <= Z.of_nat i /\ Z.of_nat i < b <= len (split text) /\
         In (join (py " ") (py_slice (split text) a b)) chunks /\
         In w (py_slice (split text) a b)).
Proof.
  intros HOM.
  destruct (chunk_loop_valid text M O ltac:(lia)) as (rs & Hshape & Hrun).
  exists (map (render (split text)) rs). split.
  - intros fuel Hfuel. destruct (Hrun fuel Hfuel) as [Hloop _].
    split; exact Hloop.
  - intros i w Hw.
    assert (Hi : (i < length (split text))%nat)
      by (apply nth_error_Some; congruence).
    destruct (ranges_from_cover (len (split text)) M O rs ltac:(lia) 0 Hshape (Z.of_nat i))
      as (r & Hr & Hir); [unfold len; lia|].
    pose proof (ranges_from_bounds (len (split text)) M O rs HOM 0 ltac:(lia) Hshape) as Hb.
    rewrite Forall_forall in Hb. destruct (Hb r Hr) as (Hr1 & Hr2 & _).
    exists (fst r), (snd r). repeat split; try lia.
    + apply in_map_iff. exists r. split; [reflexivity|exact Hr].
    + apply (slice_member _ i); [exact Hw|lia|lia].
Qed.

(** X1 at five words, windows of two words, overlap one. *)
Lemma X1_witness :
  0 <= 1 < 2 /\
  exists chunks,
    Processor.chunk_loop 6 (split (py "a b c d e")) 2 1 0 [] = Some chunks.
Proof.
  split; [lia|].
  destruct (X1_every_word_is_in_a_generated_chunk (py "a b c d e") 2 1 ltac:(lia))
    as (chunks & Hrun & _).
  exists chunks. apply Hrun. cbn. lia.
Defined.

(** X2: when the overlap is at least 50 words (as by default) and the
    text has more than 50 words, the final filter removes nothing:
    [chunk_text] returns every generated chunk, [ceil((L-O)/(M-O))] of
    them when [L > M] and one otherwise. *)
Theorem X2_filter_keeps_all_with_large_overlap (text : str) (M O : Z) :
  50 <= O < M -> 50 < len (split text) ->
  exists chunks,
    (forall fuel, (length (split text) < fuel)%nat ->
       Processor.chunk_loop fuel (split text) M O 0 [] = Some chunks /\
       Processor.chunk_text fuel text M O = Some chunks /\
       Ingest.chunk_text fuel text M O = Some chunks) /\
    len chunks = (if M <? len (split text)
                  then ceil_div (len (split text) - O) (M - O) else 1).
Proof.
  intros HOM HL.
  destruct (chunk_loop_valid text M O ltac:(lia)) as (rs & Hshape & Hrun).
  pose proof (ranges_from_long (len (split text)) M O rs HOM 0 ltac:(lia) ltac:(lia) Hshape) as Hlong.
  assert (Hkeep : filter (fun c => 50 <? len (split c))
                         (map (render (split text)) rs)
                  = map (render (split text)) rs).
  { apply filter_all, Forall_map. eapply Forall_impl; [|exact Hlong].
    intros r (Hr1 & Hr2 & Hr3). apply Z.ltb_lt.
    rewrite render_words; [lia|apply split_tokens|lia|lia]. }
  exists (map (render (split text)) rs). split.
  - intros fuel Hfuel. destruct (Hrun fuel Hfuel) as [Hloop Htext].
    rewrite Hkeep in Htext. repeat split; assumption.
  - unfold len at 1. rewrite length_map. fold (len rs).
    pose proof (ranges_from_count (len (split text)) M O rs ltac:(lia) 0 Hshape ltac:(lia)) as Hcount.
    rewrite Z.add_0_l, Z.sub_0_r in Hcount.
    destruct (Z.ltb_spec M (len (split text))); [|exact Hcount].
    symmetry. apply ceil_div_bounds; lia.
Qed.

(** X2 at the default configuration and a text of 51 words. *)
Lemma X2_witness :
  50 <= 120 < 800 /\ 50 < len (split words51) /\
  exists chunks,
    Processor.chunk_text 52 words51 800 120 = Some chunks /\ len chunks = 1.
Proof.
  split; [lia|]. split; [vm_compute; reflexivity|].
  destruct (X2_filter_keeps_all_with_large_overlap words51 800 120
              ltac:(lia) ltac:(vm_compute; reflexivity))
    as (chunks & Hrun & Hcount).
  exists chunks. split; [apply Hrun; vm_compute; lia|exact Hcount].
Defined.

(** X3: with [max_words <= 50] (and [0 <= overlap < max_words]) no
    chunk can pass the filter: [chunk_text] returns the empty list on
    every text. *)
Theorem X3_small_windows_yield_nothing (text : str) (M O : Z) (fuel : nat) :
  0 <= O < M -> M <= 50 -> (length (split text) < fuel)%nat ->
  Processor.chunk_text fuel text M O = Some [] /\
  Ingest.chunk_text fuel text M O = Some [].
Proof.
  intros HOM HM Hfuel.
  destruct (chunk_loop_valid text M O ltac:(lia)) as (rs & Hshape & Hrun).
  destruct (Hrun fuel Hfuel) as [_ Htext].
  pose proof (ranges_from_bounds (len (split text)) M O rs HOM 0 ltac:(lia) Hshape) as Hb.
  rewrite filter_none in Htext; [split; exact Htext|].
  apply Forall_map. eapply Forall_impl; [|exact Hb].
  intros r (Hr1 & Hr2 & Hr3). apply Z.ltb_ge.
  rewrite render_words; [lia|apply split_tokens|lia|lia].
Qed.

(** X3 at 51 words and windows of 50 words: nothing is returned. *)
Lemma X3_witness :
  0 <= 10 < 50 /\ 50 <= 50 /\ (length (split words51) < 52)%nat /\
  Processor.chunk_text 52 words51 50 10 = Some [].
Proof.
  split; [lia|]. split; [lia|]. split; [vm_compute; lia|].
  apply (X3_small_windows_yield_nothing words51 50 10 52);
    [lia|lia|vm_compute; lia].
Defined.

(** X4: for [0 <= O < M], every chunk that [chunk_text] returns is a
    contiguous run of words of the text joined by single spaces, of more
    than 50 and at most [M] words, and splitting it gives these words
    back. *)
Theorem X4_returned_chunks_are_word_slices (text : str) (M O : Z) (fuel : nat) :
  0 <= O < M -> (length (split text) < fuel)%nat ->
  exists chunks,
    Processor.chunk_text fuel text M O = Some chunks /\
    Ingest.chunk_text fuel text M O = Some chunks /\
    Forall (fun c => exists a b,
                0 <= a /\ b <= len (split text) /\ 50 < b - a <= M /\
                c = join (py " ") (py_slice (split text) a b) /\
                split c = py_slice (split text) a b /\
                len (split c) = b - a) chunks.
Proof.
  intros HOM Hfuel.
  destruct (chunk_loop_valid text M O ltac:(lia)) as (rs & Hshape & Hrun).
  destruct (Hrun fuel Hfuel) as [_ Htext].
  eexists. split; [exact Htext|]. split; [exact Htext|].
  pose proof (ranges_from_bounds (len (split text)) M O rs HOM 0 ltac:(lia) Hshape) as Hb.
  apply Forall_forall. intros c Hc.
  apply filter_In in Hc as [Hc Hlong]. apply Z.ltb_lt in Hlong.
  apply in_map_iff in Hc as (r & <- & Hr).
  rewrite Forall_forall in Hb. destruct (Hb r Hr) as (Hr1 & Hr2 & Hr3).
  pose proof (render_words (split text) r (split_tokens text)
                ltac:(lia) ltac:(lia)) as Hlen.
  exists (fst r), (snd r). repeat split; try lia.
  apply split_render, split_tokens.
Qed.

(** X4 at the default configuration and a text of 51 words. *)
Lemma X4_witness :
  0 <= 120 < 800 /\ (length (split words51) < 52)%nat /\
  exists chunks, Processor.chunk_text 52 words51 800 120 = Some chunks.
Proof.
  split; [lia|]. split; [vm_compute; lia|].
  destruct (X4_returned_chunks_are_word_slices words51 800 120 52
              ltac:(lia) ltac:(vm_compute; lia)) as (chunks & Hrun & _).
  exists chunks. exact Hrun.
Defined.

Lemma ranges_from_partition (words : list str) (M : Z) (rs : list (Z * Z)) :
  0 < M -> forall s, 0 <= s <= len words ->
  ranges_from (len words) M 0 s rs ->
  flat_map (fun r => py_slice words (fst r) (snd r)) rs
  = skipn (Z.to_nat s) words.
Proof.
  intros HM. induction rs as [|r rs IH]; intros s Hs Hrs.
  - cbn in Hrs. cbn [flat_map].
    replace (Z.to_nat s) with (length words) by (unfold len in *; lia).
    rewrite skipn_all. reflexivity.
  - cbn [ranges_from] in Hrs. destruct Hrs as (HsL & Ha & Hb & Hrest).
    cbn [flat_map]. rewrite py_slice_inside by lia. rewrite Ha.
    destruct Hrest as [[Hend ->]|[Hlt Hrest]].
    + cbn [flat_map]. rewrite app_nil_r. apply firstn_all2.
      rewrite length_skipn. unfold len in *. lia.
    + rewrite (IH (snd r - 0)); [|lia|exact Hrest].
      replace (Z.to_nat (snd r - 0))
        with (Z.to_nat (snd r - s) + Z.to_nat s)%nat by lia.
      rewrite <- skipn_skipn. apply firstn_skipn.
Qed.

(** X5: with an overlap of 0 and [max_words > 0] the generated chunks
    partition the text: their words, taken chunk after chunk, are the
    words of the text, each exactly once and in order. *)
Theorem X5_zero_overlap_partitions_the_words (text : str) (M : Z) (fuel : nat) :
  0 < M -> (length (split text) < fuel)%nat ->
  exists chunks,
    Processor.chunk_loop fuel (split text) M 0 0 [] = Some chunks /\
    Ingest.chunk_loop fuel (split text) M 0 0 [] = Some chunks /\
    flat_map split chunks = split text.
Proof.
  intros HM Hfuel.
  destruct (chunk_loop_valid text M 0 ltac:(lia)) as (rs & Hshape & Hrun).
  destruct (Hrun fuel Hfuel) as [Hloop _].
  eexists. split; [exact Hloop|]. split; [exact Hloop|].
  rewrite flat_map_concat_map, map_map, <- flat_map_concat_map.
  rewrite (flat_map_ext _ (fun r => py_slice (split text) (fst r) (snd r)))
    by (intros r; apply split_render, split_tokens).
  rewrite (ranges_from_partition _ M rs HM 0); [reflexivity|unfold len; lia|exact Hshape].
Qed.

(** X5 at five words and windows of two words. *)
Lemma X5_witness :
  0 < 2 /\ (length (split (py "a b c d e")) < 6)%nat /\
  exists chunks,
    Processor.chunk_loop 6 (split (py "a b c d e")) 2 0 0 [] = Some chunks /\
    flat_map split chunks = split (py "a b c d e").
Proof.
  split; [lia|]. split; [cbn; lia|].
  destruct (X5_zero_overlap_partitions_the_words (py "a b c d e") 2 6
              ltac:(lia) ltac:(cbn; lia)) as (chunks & Hrun & _ & Hwords).
  exists chunks. split; assumption.
Defined.

(** ** Normalisation and the word sequence *)

Lemma lstrip_app (a b : str) :
  lstrip (a ++ b) = match lstrip a with
                    | [] => lstrip b
                    | _ :: _ => lstrip a ++ b
                    end.
Proof.
  induction a as [|x a IH]; [reflexivity|].
  cbn [app lstrip]. destruct (isspace x); [exact IH|reflexivity].
Qed.

Lemma rstrip_cons (c : N) (s : str) :
  rstrip (c :: s) = match rstrip s with
                    | [] => if isspace c then [] else [c]
                    | _ :: _ => c :: rstrip s
                    end.
Proof.
  unfold rstrip. cbn [rev]. rewrite lstrip_app.
  destruct (lstrip (rev s)) as [|x u].
  - cbn. destruct (isspace c); reflexivity.
  - rewrite rev_app_distr. cbn [rev app].
    destruct (rev u ++ [x]) as [|y ys] eqn:Hrev; [|reflexivity].
    apply app_eq_nil in Hrev as [_ Hrev]. discriminate.
Qed.

Lemma split_starts (d : N) (s : str) :
  isspace d = false -> exists w ws, split (d :: s) = (d :: w) :: ws.
Proof.
  intros Hd. cbn [split]. rewrite Hd.
  destruct s as [|e s]; [exists [], []; reflexivity|].
  destruct (isspace e); [exists [], (split (e :: s)); reflexivity|].
  destruct (split (e :: s)) as [|w ws]; [exists [], []; reflexivity|].
  exists w, ws. reflexivity.
Qed.

Lemma join_cons (sep : str) (c : N) (w : str) (ws : list str) :
  join sep ((c :: w) :: ws) = c :: join sep (w :: ws).
Proof. destruct ws; reflexivity. Qed.

(** Without its trailing whitespace, the collapsed text is the words
    joined by single spaces, after one space if the text starts with
    whitespace and has a word. *)
Lemma rstrip_collapse (s : str) :
  rstrip (collapse s)
  = (if starts_space s
     then match split s with [] => [] | _ :: _ => [32%N] end
     else []) ++ join (py " ") (split s).
Proof.
  rewrite py_space. induction s as [|c s IH]; [reflexivity|].
  destruct (isspace c) eqn:Hc.
  - assert (Hsplit : split (c :: s) = split s) by (cbn [split]; rewrite Hc; reflexivity).
    rewrite Hsplit. cbn [starts_space]. rewrite Hc.
    destruct s as [|d s].
    + cbn [collapse]. rewrite Hc. reflexivity.
    + change (collapse (c :: d :: s))
        with (if isspace c
              then if isspace d then collapse (d :: s)
                   else 32%N :: collapse (d :: s)
              else c :: collapse (d :: s)).
      rewrite Hc. cbn [starts_space] in IH.
      destruct (isspace d) eqn:Hd; [exact IH|].
      rewrite rstrip_cons, IH.
      destruct (split_starts d s Hd) as (w & ws & ->).
      cbn [app]. rewrite join_cons. reflexivity.
  - rewrite collapse_other by exact Hc. cbn [starts_space]. rewrite Hc.
    rewrite rstrip_cons, IH. cbn [app].
    destruct s as [|d s].
    + cbn. rewrite Hc. reflexivity.
    + change (split (c :: d :: s))
        with (if isspace c then split (d :: s)
              else if isspace d then [c] :: split (d :: s)
                   else match split (d :: s) with
                        | x :: ws => (c :: x) :: ws
                        | [] => [[c]]
                        end).
      rewrite Hc. cbn [starts_space].
      destruct (isspace d) eqn:Hd.
      * destruct (split (d :: s)) as [|w ws]; reflexivity.
      * destruct (split_starts d s Hd) as (w & ws & ->).
        cbn [app]. rewrite !join_cons. reflexivity.
Qed.

Lemma collapse_clean (s : str) : starts_clean s -> starts_clean (collapse s).
Proof.
  destruct s as [|c s]; [auto|]. cbn [starts_clean]. intros Hc.
  rewrite collapse_other by exact Hc. exact Hc.
Qed.

Lemma lstrip_collapse (s : str) : lstrip (collapse s) = collapse (lstrip s).
Proof.
  destruct s as [|c s]; [reflexivity|].
  destruct (isspace c) eqn:Hc.
  - rewrite collapse_space by exact Hc. cbn [lstrip]. rewrite isspace_32, Hc.
    apply lstrip_id, collapse_clean, lstrip_clean.
  - rewrite collapse_other by exact Hc. cbn [lstrip]. rewrite Hc.
    rewrite collapse_other by exact Hc. reflexivity.
Qed.

Lemma split_lstrip (s : str) : split (lstrip s) = split s.
Proof.
  induction s as [|c s IH]; [reflexivity|].
  cbn [lstrip]. destruct (isspace c) eqn:Hc; [|reflexivity].
  rewrite IH. cbn [split]. rewrite Hc. reflexivity.
Qed.

Lemma starts_space_clean (s : str) : starts_clean s -> starts_space s = false.
Proof. destruct s; [reflexivity|]. cbn. auto. Qed.

Lemma split_nil_iff (s : str) : split s = [] <-> forallb isspace s = true.
Proof.
  induction s as [|c s IH]; [split; reflexivity|].
  cbn [forallb]. destruct (isspace c) eqn:Hc.
  - cbn [split andb]. rewrite Hc. exact IH.
  - destruct (split_starts c s Hc) as (w & ws & ->).
    cbn [andb]. split; discriminate.
Qed.

Lemma join_nil_iff (ws : list str) :
  Forall is_token ws -> (join (py " ") ws = [] <-> ws = []).
Proof.
  intros Hws. split; [|intros ->; reflexivity].
  destruct Hws as [|w ws [Hne _] _]; [reflexivity|].
  destruct w as [|c w]; [congruence|].
  rewrite join_cons. discriminate.
Qed.

Lemma normalize_join `{UnicodeTables} (text : str) :
  normalize text = join (py " ") (split text).
Proof.
  rewrite normalize_collapse. unfold strip.
  rewrite lstrip_collapse, rstrip_collapse.
  rewrite (starts_space_clean _ (lstrip_clean text)), split_lstrip.
  reflexivity.
Qed.

(** X6: normalisation gives the words of the text, in order, joined by
    single spaces: what joining the result of [text.split()] with one
    space gives. *)
Theorem X6_normalize_is_join_of_split `{UnicodeTables} (text : str) :
  normalize text = join (py " ") (split text).
Proof. apply normalize_join. Qed.

(** X7: normalisation keeps the word sequence, so chunking sees the
    words of the extracted text; and the normalised text is empty
    exactly when the extracted text has no word, that is, when all its
    characters are whitespace. *)
Theorem X7_normalize_keeps_the_words `{UnicodeTables} (text : str) :
  split (normalize text) = split text /\
  (normalize text = [] <-> split text = []) /\
  (normalize text = [] <-> forallb isspace text = true).
Proof.
  rewrite normalize_join.
  pose proof (join_nil_iff (split text) (split_tokens text)) as Hnil.
  split; [apply split_join, split_tokens|].
  split; [exact Hnil|]. rewrite Hnil. apply split_nil_iff.
Qed.

(** X8: a page whose extracted text has between 51 and 800 words is
    chunked, with the default configuration, into exactly one chunk, and
    that chunk is the normalised text of the page itself. *)
Theorem X8_short_page_is_indexed_verbatim `{UnicodeTables}
  (raw_text : str) (fuel : nat) :
  50 < len (split raw_text) <= 800 ->
  Processor.chunk_text (S fuel) (normalize raw_text) 800 120
    = Some [normalize raw_text] /\
  Ingest.chunk_text (S fuel) (normalize raw_text) 800 120
    = Some [normalize raw_text].
Proof.
  intros HL.
  assert (Hwords : split (normalize raw_text) = split raw_text)
    by (rewrite normalize_join; apply split_join, split_tokens).
  assert (Hrun : Processor.chunk_text (S fuel) (normalize raw_text) 800 120
                 = Some [normalize raw_text]).
  { rewrite chunk_text_default_short by (rewrite Hwords; lia).
    rewrite Hwords. destruct (Z.ltb_spec 50 (len (split raw_text))); [|lia].
    rewrite <- normalize_join. reflexivity. }
  split; exact Hrun.
Qed.

(** X8 at a text of 51 words with irregular whitespace around it. *)
Lemma X8_witness :
  50 < len (split ([9%N; 32%N] ++ words51 ++ [10%N])) <= 800 /\
  @Processor.chunk_text 1
     (@normalize ascii_tables ([9%N; 32%N] ++ words51 ++ [10%N])) 800 120
  = Some [words51].
Proof.
  split; [vm_compute; split; [reflexivity|discriminate]|].
  destruct (@X8_short_page_is_indexed_verbatim ascii_tables
              ([9%N; 32%N] ++ words51 ++ [10%N]) 0%nat) as [Hrun _].
  - vm_compute. split; [reflexivity|discriminate].
  - rewrite Hrun. vm_compute. reflexivity.
Defined.

(** ** The metadata rules: what a result can be *)

Lemma infix_refl (t : str) : infix t t.
Proof. exists [], []. rewrite app_nil_r. reflexivity. Qed.

Lemma infix_nil (t : str) : infix [] t.
Proof. exists [], t. reflexivity. Qed.

Lemma infix_trans (a b c : str) : infix a b -> infix b c -> infix a c.
Proof.
  intros (p & q & ->) (p' & q' & ->).
  exists (p' ++ p), (q ++ q'). rewrite <- !app_assoc. reflexivity.
Qed.

Lemma strip_infix (g : str) : infix (strip g) g.
Proof.
  unfold strip. destruct (lstrip_suffix g) as [p Hp].
  destruct (rstrip_prefix (lstrip g)) as [q Hq].
  exists p, q. rewrite <- Hq. exact Hp.
Qed.

Section Search.
Context `{UnicodeTables}.
Variable ic : bool.

(** What [re.search] finds stands in the text at the offset it reports. *)
Lemma search_from_infix (r : regex) (s : str) :
  forall (pos : nat) (prev : option N) (p : nat) (g : str),
    search_from ic r pos prev s = Some (p, g) ->
    exists pre post, s = pre ++ g ++ post /\ p = (pos + length pre)%nat.
Proof.
  induction s as [|c s IH]; intros pos prev p g Hfound.
  - cbn [search_from] in Hfound.
    destruct (match_here ic r prev []) as [rest|]; [|discriminate].
    injection Hfound as <- <-. exists [], []. cbn. split; [reflexivity|lia].
  - cbn [search_from] in Hfound.
    destruct (match_here ic r prev (c :: s)) as [rest|].
    + injection Hfound as <- <-. unfold matched.
      exists [], (skipn (length (c :: s) - length rest) (c :: s)).
      cbn [app]. rewrite firstn_skipn. split; [reflexivity|cbn; lia].
    + destruct (IH _ _ _ _ Hfound) as (pre & post & -> & ->).
      exists (c :: pre), post. split; [reflexivity|cbn [length]; lia].
Qed.

Lemma re_search_infix (r : regex) (text : str) (p : nat) (g : str) :
  re_search ic r text = Some (p, g) -> infix g text.
Proof.
  intros Hfound. apply search_from_infix in Hfound as (pre & post & -> & _).
  exists pre, post. reflexivity.
Qed.

Variable P : N -> Prop.

Lemma star_sound (cs : cset) (k : option N -> str -> option str) :
  (forall c, in_cset ic cs c = true -> P c) ->
  forall (s : str) (prev : option N) (res : str),
    star ic cs k prev s = Some res ->
    exists a rest prev',
      s = a ++ rest /\ Forall P a /\ k prev' rest = Some res.
Proof.
  intros Hcs. induction s as [|c s IH]; intros prev res Hrun.
  - exists [], [], prev. cbn in Hrun. auto.
  - cbn [star] in Hrun. destruct (in_cset ic cs c) eqn:Hc.
    + destruct (star ic cs k (Some c) s) as [res'|] eqn:Hrec.
      * injection Hrun as <-.
        destruct (IH _ _ Hrec) as (a & rest & prev' & -> & Ha & Hk).
        exists (c :: a), rest, prev'. repeat split; auto.
      * exists [], (c :: s), prev. auto.
    + exists [], (c :: s), prev. auto.
Qed.

(** What a pattern consumes is made of characters of its sets, and is
    at least as long as the pattern requires. *)
Lemma rmatch_sound (r : regex) :
  (forall cs, In cs (regex_csets r) -> forall c, in_cset ic cs c = true -> P c) ->
  forall (k : option N -> str -> option str) (prev : option N) (s res : str),
    rmatch ic r k prev s = Some res ->
    exists a rest prev',
      s = a ++ rest /\ Forall P a /\ (min_len r <= length a)%nat /\
      k prev' rest = Some res.
Proof.
  induction r as [|cs|r1 IH1 r2 IH2|r1 IH1 r2 IH2|cs|]; intros Hcs k prev s res Hrun.
  - exists [], s, prev. cbn in *. auto.
  - cbn [rmatch] in Hrun. destruct s as [|c s]; [discriminate|].
    destruct (in_cset ic cs c) eqn:Hc; [|discriminate].
    exists [c], s, (Some c). repeat split; auto.
    constructor; [|constructor]. apply (Hcs cs); [left; reflexivity|exact Hc].
  - cbn [rmatch] in Hrun. cbn [regex_csets] in Hcs.
    destruct (IH1 (fun cs Hin => Hcs cs (in_or_app _ _ _ (or_introl Hin)))
                _ _ _ _ Hrun) as (a1 & rest1 & p1 & -> & Ha1 & Hl1 & Hrun2).
    destruct (IH2 (fun cs Hin => Hcs cs (in_or_app _ _ _ (or_intror Hin)))
                _ _ _ _ Hrun2) as (a2 & rest & p2 & -> & Ha2 & Hl2 & Hk).
    exists (a1 ++ a2), rest, p2. rewrite <- app_assoc.
    repeat split; auto.
    + apply Forall_app. auto.
    + cbn [min_len]. rewrite length_app. lia.
  - cbn [rmatch] in Hrun. cbn [regex_csets] in Hcs.
    destruct (rmatch ic r1 k prev s) as [res1|] eqn:H1.
    + injection Hrun as <-.
      destruct (IH1 (fun cs Hin => Hcs cs (in_or_app _ _ _ (or_introl Hin)))
                  _ _ _ _ H1) as (a & rest & p & -> & Ha & Hl & Hk).
      exists a, rest, p. repeat split; auto. cbn [min_len]. lia.
    + destruct (IH2 (fun cs Hin => Hcs cs (in_or_app _ _ _ (or_intror Hin)))
                  _ _ _ _ Hrun) as (a & rest & p & -> & Ha & Hl & Hk).
      exists a, rest, p. repeat split; auto. cbn [min_len]. lia.
  - cbn [rmatch] in Hrun.
    destruct (star_sound cs k (Hcs cs (or_introl eq_refl)) _ _ _ Hrun)
      as (a & rest & p & -> & Ha & Hk).
    exists a, rest, p. repeat split; auto. cbn. lia.
  - cbn [rmatch] in Hrun.
    destruct (xorb (is_word prev) (is_word (hd_error s))); [|discriminate].
    exists [], s, prev. cbn. auto.
Qed.

Lemma matched_app (a rest : str) : matched (a ++ rest) rest = a.
Proof.
  unfold matched. rewrite length_app.
  replace (length a + length rest - length rest)%nat with (length a) by lia.
  rewrite firstn_app, Nat.sub_diag, firstn_all. cbn. apply app_nil_r.
Qed.

Lemma search_from_sound (r : regex) :
  (forall cs, In cs (regex_csets r) -> forall c, in_cset ic cs c = true -> P c) ->
  forall (s : str) (pos : nat) (prev : option N) (p : nat) (g : str),
    search_from ic r pos prev s = Some (p, g) ->
    Forall P g /\ (min_len r <= length g)%nat.
Proof.
  intros Hcs.
  assert (Hhere : forall prev s rest,
             match_here ic r prev s = Some rest ->
             Forall P (matched s rest) /\ (min_len r <= length (matched s rest))%nat).
  { intros prev s rest Hm. unfold match_here in Hm.
    destruct (rmatch_sound r Hcs _ _ _ _ Hm) as (a & rest' & p' & -> & Ha & Hl & [= ->]).
    rewrite matched_app. auto. }
  induction s as [|c s IH]; intros pos prev p g Hfound; cbn [search_from] in Hfound.
  - destruct (match_here ic r prev []) as [rest|] eqn:Hm; [|discriminate].
    injection Hfound as <- <-. exact (Hhere _ _ _ Hm).
  - destruct (match_here ic r prev (c :: s)) as [rest|] eqn:Hm.
    + injection Hfound as <- <-. exact (Hhere _ _ _ Hm).
    + exact (IH _ _ _ _ Hfound).
Qed.
End Search.

Ltac bool_facts :=
  repeat match goal with
         | H : (_ || _)%bool = true |- _ => apply orb_true_iff in H; destruct H
         | H : (_ && _)%bool = true |- _ => apply andb_true_iff in H; destruct H
         | H : (_ <=? _)%N = true |- _ => apply N.leb_le in H
         | H : (_ =? _)%N = true |- _ => apply N.eqb_eq in H
         | H : false = true |- _ => discriminate H
         end.

Section MetadataResults.
Context `{UnicodeTables}.

Lemma first_search_infix (patterns : list regex) (text : str) :
  infix (Ingest.first_search patterns text) text.
Proof.
  induction patterns as [|r patterns IH]; [apply infix_nil|].
  cbn [Ingest.first_search].
  destruct (re_search true r text) as [[p g]|] eqn:Hfound; [|exact IH].
  exact (infix_trans _ _ _ (strip_infix g) (re_search_infix _ _ _ _ _ Hfound)).
Qed.

Lemma part_re_chars (cs : cset) :
  In cs (regex_csets Ingest.part_re) ->
  forall c, in_cset false cs c = true -> part_char c.
Proof.
  intros Hin c Hc. vm_compute in Hin.
  repeat (destruct Hin as [<-|Hin]); try destruct Hin;
    unfold in_cset in Hc; cbn [existsb in_item] in Hc;
    bool_facts; unfold part_char; lia.
Qed.

(** Under IGNORECASE the literal "Section" matches what "SECTION"
    matches. *)
Lemma lit_section_equiv (k : option N -> str -> option str)
      (prev : option N) (s : str) :
  rmatch true (lit "Section") k prev s = rmatch true (lit "SECTION") k prev s.
Proof. reflexivity. Qed.

Lemma search_from_ext (ic : bool) (r r' : regex) :
  (forall prev s, match_here ic r prev s = match_here ic r' prev s) ->
  forall s pos prev, search_from ic r pos prev s = search_from ic r' pos prev s.
Proof.
  intros Hext. induction s as [|c s IH]; intros pos prev; cbn [search_from];
    rewrite Hext; [reflexivity|].
  destruct (match_here ic r' prev (c :: s)); [reflexivity|apply IH].
Qed.
End MetadataResults.

(** X9: whatever the text, each metadata value that either script
    extracts (section, chapter, part number) occurs in the text as a
    contiguous substring; nothing is made up. *)
Theorem X9_metadata_values_are_substrings `{UnicodeTables} (text : str) :
  infix (Processor.section (Processor.extract_metadata text)) text /\
  infix (Processor.ata_chapter (Processor.extract_metadata text)) text /\
  infix (Processor.part_number (Processor.extract_metadata text)) text /\
  infix (Ingest.infer_section text) text /\
  infix (Ingest.infer_chapter text) text /\
  infix (Ingest.infer_part_number text) text.
Proof.
  assert (Hstrip : forall ic r,
             infix (match re_search ic r text with
                    | Some (_, g) => strip g
                    | None => []
                    end) text).
  { intros ic r. destruct (re_search ic r text) as [[p g]|] eqn:Hfound;
      [|apply infix_nil].
    exact (infix_trans _ _ _ (strip_infix g) (re_search_infix _ _ _ _ _ Hfound)). }
  assert (Hplain : forall ic r,
             infix (match re_search ic r text with
                    | Some (_, g) => g
                    | None => []
                    end) text).
  { intros ic r. destruct (re_search ic r text) as [[p g]|] eqn:Hfound;
      [|apply infix_nil].
    exact (re_search_infix _ _ _ _ _ Hfound). }
  unfold Processor.extract_metadata. cbn [Processor.section
    Processor.ata_chapter Processor.part_number].
  repeat split; try apply Hstrip; try apply Hplain; apply first_search_infix.
Qed.

(** X10: the part number that either script extracts is empty, or is
    made only of upper-case ASCII letters, ASCII digits and hyphens (no
    whitespace, no lower case) and has at least five characters; the
    two scripts extract the same part number. *)
Theorem X10_part_number_shape `{UnicodeTables} (text : str) :
  (Ingest.infer_part_number text = [] \/
   (5 <= length (Ingest.infer_part_number text))%nat /\
   Forall part_char (Ingest.infer_part_number text)) /\
  Processor.part_number (Processor.extract_metadata text)
  = Ingest.infer_part_number text.
Proof.
  split; [|reflexivity].
  unfold Ingest.infer_part_number.
  destruct (re_search false Ingest.part_re text) as [[p g]|] eqn:Hfound;
    [right|left; reflexivity].
  destruct (search_from_sound false part_char Ingest.part_re part_re_chars
              _ _ _ _ _ Hfound) as [Hchars Hlen].
  split; [exact Hlen|exact Hchars].
Qed.

Lemma second_section_pattern_redundant `{UnicodeTables} (text : str) :
  re_search true (seqs (lit "Section" :: Ingest.section_tail)) text
  = re_search true (seqs (lit "SECTION" :: Ingest.section_tail)) text.
Proof.
  unfold re_search. apply search_from_ext. intros prev s.
  unfold match_here. cbn [seqs rmatch]. apply lit_section_equiv.
Qed.

Lemma infer_section_agrees `{UnicodeTables} (text : str) :
  Ingest.infer_section text
  = Processor.section (Processor.extract_metadata text).
Proof.
  unfold Ingest.infer_section, Ingest.section_patterns.
  cbn [Ingest.first_search]. rewrite second_section_pattern_redundant.
  unfold Processor.extract_metadata. cbn [Processor.section].
  change Processor.section_re with (seqs (lit "SECTION" :: Ingest.section_tail)).
  destruct (re_search true (seqs (lit "SECTION" :: Ingest.section_tail)) text)
    as [[p g]|]; reflexivity.
Qed.

(** X11: the two scripts extract the same section from every text: the
    second pattern of [infer_section] differs from the first only in
    the case of its keyword, which IGNORECASE makes irrelevant, so it
    never finds what the first did not. *)
Theorem X11_sections_agree `{UnicodeTables} (text : str) :
  Ingest.infer_section text
  = Processor.section (Processor.extract_metadata text) /\
  re_search true (seqs (lit "Section" :: Ingest.section_tail)) text
  = re_search true (seqs (lit "SECTION" :: Ingest.section_tail)) text.
Proof.
  split; [apply infer_section_agrees|apply second_section_pattern_redundant].
Qed.

Section Alternatives.
Context `{UnicodeTables}.
Variable ic : bool.

Lemma star_where_none (cs : cset) (k k1 k2 : option N -> str -> option str) :
  (forall p s, k p s = None -> k1 p s = k2 p s) ->
  forall s p, star ic cs k p s = None -> star ic cs k1 p s = star ic cs k2 p s.
Proof.
  intros Hk. induction s as [|c s IH]; intros p Hnone; cbn [star] in *.
  - apply Hk, Hnone.
  - destruct (in_cset ic cs c); [|apply Hk, Hnone].
    destruct (star ic cs k (Some c) s) eqn:Hrec; [discriminate|].
    rewrite (IH _ Hrec), (Hk _ _ Hnone). reflexivity.
Qed.

(** Where a pattern followed by [k] fails, following it by [k1] or by
    [k2] gives the same, provided [k1] and [k2] agree wherever [k]
    fails. *)
Lemma rmatch_where_none (r : regex) :
  forall (k k1 k2 : option N -> str -> option str),
    (forall p s, k p s = None -> k1 p s = k2 p s) ->
    forall p s, rmatch ic r k p s = None ->
                rmatch ic r k1 p s = rmatch ic r k2 p s.
Proof.
  induction r as [|cs|r1 IH1 r2 IH2|r1 IH1 r2 IH2|cs|];
    intros k k1 k2 Hk p s Hnone; cbn [rmatch] in *.
  - apply Hk, Hnone.
  - destruct s as [|c s]; [reflexivity|].
    destruct (in_cset ic cs c); [apply Hk, Hnone|reflexivity].
  - apply (IH1 (rmatch ic r2 k)); [|exact Hnone].
    intros p' s'. apply IH2, Hk.
  - destruct (rmatch ic r1 k p s) eqn:H1; [discriminate|].
    rewrite (IH1 k k1 k2 Hk _ _ H1), (IH2 k k1 k2 Hk _ _ Hnone). reflexivity.
  - apply (star_where_none cs k); assumption.
  - destruct (xorb (is_word p) (is_word (hd_error s))); [apply Hk, Hnone|reflexivity].
Qed.

Lemma search_from_where_none (r r1 r2 : regex) :
  (forall p s, match_here ic r p s = None ->
               match_here ic r1 p s = match_here ic r2 p s) ->
  forall s pos p, search_from ic r pos p s = None ->
                  search_from ic r1 pos p s = search_from ic r2 pos p s.
Proof.
  intros Hr. induction s as [|c s IH]; intros pos p Hnone; cbn [search_from] in *.
  - destruct (match_here ic r p []) eqn:Hm; [discriminate|].
    rewrite (Hr _ _ Hm). reflexivity.
  - destruct (match_here ic r p (c :: s)) eqn:Hm; [discriminate|].
    rewrite (Hr _ _ Hm), (IH _ _ Hnone). reflexivity.
Qed.
End Alternatives.

(** Where "ATA Chapter NN" does not match, the pattern with the optional
    "Chapter" matches what the bare pattern matches. *)
Lemma ata_optional_is_bare `{UnicodeTables} (p : option N) (s : str) :
  match_here true Ingest.ata_chapter_re p s = None ->
  match_here true Processor.ata_re p s = match_here true Ingest.ata_bare_re p s.
Proof.
  unfold match_here.
  set (k := rmatch true (seqs [lit "Chapter"; Star [CSpace];
                               Chr [CDigit]; Chr [CDigit]])
                   (fun _ rest => Some rest)).
  set (k1 := rmatch true (seqs [opt (seqs [lit "Chapter"; Star [CSpace]]);
                                Chr [CDigit]; Chr [CDigit]])
                    (fun _ rest => Some rest)).
  set (k2 := rmatch true (seqs [Chr [CDigit]; Chr [CDigit]])
                    (fun _ rest => Some rest)).
  change (rmatch true (Seq (lit "ATA") (Star [CSpace])) k p s = None ->
          rmatch true (Seq (lit "ATA") (Star [CSpace])) k1 p s
          = rmatch true (Seq (lit "ATA") (Star [CSpace])) k2 p s).
  apply rmatch_where_none.
  intros p' s' Hk.
  change (k1 p' s') with (match k p' s' with
                          | Some x => Some x
                          | None => k2 p' s'
                          end).
  rewrite Hk. reflexivity.
Qed.

(** X12: the two scripts can disagree on the chapter only when the text
    holds an "ATA Chapter NN": on a text where that variant is nowhere
    found, [infer_chapter] and [extract_metadata] return the same
    chapter. *)
Theorem X12_chapters_agree_without_chapter_keyword `{UnicodeTables} (text : str) :
  re_search true Ingest.ata_chapter_re text = None ->
  Ingest.infer_chapter text
  = Processor.ata_chapter (Processor.extract_metadata text).
Proof.
  intros Hnone.
  unfold Ingest.infer_chapter, Ingest.chapter_patterns.
  cbn [Ingest.first_search]. rewrite Hnone.
  unfold Processor.extract_metadata. cbn [Processor.ata_chapter].
  unfold re_search in *.
  rewrite (search_from_where_none true Ingest.ata_chapter_re
             Processor.ata_re Ingest.ata_bare_re ata_optional_is_bare
             _ _ _ Hnone).
  destruct (search_from true Ingest.ata_bare_re 0 None text) as [[p g]|];
    reflexivity.
Qed.

(** X12 on a text with a bare chapter only. *)
Lemma X12_witness :
  @re_search ascii_tables true Ingest.ata_chapter_re (py "See ATA 21 first") = None /\
  @Ingest.infer_chapter ascii_tables (py "See ATA 21 first")
  = Processor.ata_chapter (@Processor.extract_metadata ascii_tables
                             (py "See ATA 21 first")).
Proof.
  split; [vm_compute; reflexivity|].
  apply (@X12_chapters_agree_without_chapter_keyword ascii_tables).
  vm_compute. reflexivity.
Defined.

(** ** The pipelines: the documents of a run *)

Section IngestDocuments.
Context `{UnicodeTables} `{Collaborators}.
Variable manual : str.

Lemma ingest_chunks_loop_exact (p : Ingest.page) (section chapter part : str) :
  forall (chunks : list str) (actions : list Ingest.document) (chunk_count : Z)
         (w : world Ingest.document),
    exists new w',
      Ingest.chunks_loop p section chapter part manual
        chunks actions chunk_count w
        = Some ((actions ++ new, chunk_count + len new), w') /\
      map Ingest.d_id new = map uuid4 (seq (uuid_count w) (length chunks)) /\
      map Ingest.content new = chunks /\
      Forall (fun d => Ingest.d_page d = Ingest.page_no p /\
                       Ingest.d_section d = section /\
                       Ingest.d_chapter d = chapter /\
                       Ingest.d_part_number d = part /\
                       Ingest.manual_id d = manual /\
                       Ingest.d_index d = Ingest.INDEX_NAME /\
                       Ingest.embedding d = encode (Ingest.content d)) new /\
      uuid_count w' = (uuid_count w + length chunks)%nat /\
      index_exists w' = index_exists w /\ bulk_calls w' = bulk_calls w.
Proof.
  induction chunks as [|chunk chunks IH]; intros actions chunk_count w.
  - exists [], w. rewrite app_nil_r. unfold len. cbn [length Z.of_nat].
    rewrite Z.add_0_r, Nat.add_0_r. repeat split. constructor.
  - cbn [Ingest.chunks_loop]. unfold bind at 1. unfold logged at 1.
    unfold bind at 1. unfold fresh_id at 1.
    match goal with
    | |- context [Ingest.chunks_loop _ _ _ _ _ chunks (actions ++ [?d]) ?c ?w1] =>
        destruct (IH (actions ++ [d]) c w1)
          as (new & w' & Hrun & Hid & Hc & Hall & Hn & Hi & Hb);
          exists (d :: new), w'
    end.
    rewrite Hrun, <- app_assoc.
    cbn [uuid_count index_exists bulk_calls] in Hid, Hn, Hi, Hb.
    split; [do 3 f_equal; unfold len; cbn [length]; lia|].
    split; [cbn [map seq Ingest.d_id]; rewrite Hid; reflexivity|].
    split; [cbn [map Ingest.content]; rewrite Hc; reflexivity|].
    split; [constructor; [cbn; repeat split|exact Hall]|].
    split; [cbn [length]; lia|split; [exact Hi|exact Hb]].
Qed.

Lemma ingest_pages_loop_exact :
  forall (pages : list Ingest.page) (actions : list Ingest.document)
         (chunk_count : Z) (w : world Ingest.document),
    exists new w',
      Ingest.pages_loop manual pages actions chunk_count w
        = Some ((actions ++ new, chunk_count + len new), w') /\
      map Ingest.d_id new = map uuid4 (seq (uuid_count w) (length new)) /\
      map (fun d => (Ingest.d_page d, Ingest.content d)) new
        = ingest_page_chunks pages /\
      Forall (fun d => Ingest.d_index d = Ingest.INDEX_NAME /\
                       Ingest.manual_id d = manual /\
                       Ingest.embedding d = encode (Ingest.content d)) new /\
      uuid_count w' = (uuid_count w + length new)%nat /\
      index_exists w' = index_exists w /\ bulk_calls w' = bulk_calls w.
Proof.
  induction pages as [|p pages IH]; intros actions chunk_count w.
  - exists [], w. rewrite app_nil_r. unfold len. cbn [length Z.of_nat].
    rewrite Z.add_0_r, Nat.add_0_r. repeat split. constructor.
  - cbn [Ingest.pages_loop].
    unfold bind at 1. unfold logged at 1. unfold bind at 1. unfold logged at 1.
    unfold bind at 1. unfold logged at 1. unfold bind at 1. unfold logged at 1.
    unfold bind at 1.
    rewrite ingest_chunk_text_default. unfold lift at 1. unfold bind at 1.
    match goal with
    | |- context [Ingest.chunks_loop _ ?a ?b ?c _ _ actions chunk_count ?w1] =>
        destruct (ingest_chunks_loop_exact p a b c
                    (default_chunks (Ingest.text p)) actions chunk_count w1)
          as (new1 & w1' & Hrun1 & Hid1 & Hc1 & Hall1 & Hn1 & Hi1 & Hb1)
    end.
    rewrite Hrun1. cbn [fst snd].
    cbn [uuid_count index_exists bulk_calls] in Hid1, Hn1, Hi1, Hb1.
    destruct (IH (actions ++ new1) (chunk_count + len new1) w1')
      as (new2 & w' & Hrun2 & Hid2 & Hpc2 & Hall2 & Hn2 & Hi2 & Hb2).
    assert (Hlen1 : length new1 = length (default_chunks (Ingest.text p)))
      by (rewrite <- Hc1, length_map; reflexivity).
    exists (new1 ++ new2), w'. rewrite Hrun2, <- app_assoc.
    split; [do 3 f_equal; unfold len; rewrite length_app; lia|].
    split; [|split; [|split; [|split; [|split]]]].
    + rewrite map_app, length_app, seq_app, map_app, Hid1, Hid2, Hn1, Hlen1.
      reflexivity.
    + rewrite map_app, Hpc2. unfold ingest_page_chunks. cbn [flat_map]. f_equal.
      rewrite <- Hc1. clear - Hall1.
      induction Hall1 as [|d l (Hpage & _) _ IHl]; [reflexivity|].
      cbn [map]. rewrite Hpage, IHl. reflexivity.
    + apply Forall_app. split; [|exact Hall2].
      eapply Forall_impl; [|exact Hall1].
      intros d (_ & _ & _ & _ & Hm & Hx & He). auto.
    + rewrite Hn2, Hn1, length_app. lia.
    + congruence.
    + congruence.
Qed.

(** The documents of a run of [index_pdf]. *)
Lemma ingest_run_exact (pdf_path : str) (raw : list (option str))
      (w : world Ingest.document) :
  exists docs w',
    Ingest.index_pdf pdf_path manual raw w = Some (PyNone, w') /\
    bulk_calls w' = bulk_calls w ++ [docs] /\
    map Ingest.d_id docs = map uuid4 (seq (uuid_count w) (length docs)) /\
    map (fun d => (Ingest.d_page d, Ingest.content d)) docs
      = ingest_page_chunks (Ingest.extract_text_by_page raw) /\
    Forall (fun d => Ingest.d_index d = Ingest.INDEX_NAME /\
                     Ingest.manual_id d = manual /\
                     Ingest.embedding d = encode (Ingest.content d)) docs /\
    uuid_count w' = (uuid_count w + length docs)%nat /\
    index_exists w' = true.
Proof.
  unfold Ingest.index_pdf. unfold bind at 1.
  assert (Hcreate : exists w0,
             Ingest.create_index w = Some (tt, w0) /\
             bulk_calls w0 = bulk_calls w /\ uuid_count w0 = uuid_count w /\
             index_exists w0 = true).
  { unfold Ingest.create_index, print.
    destruct (index_exists w) eqn:He; eexists; (split; [reflexivity|]); cbn; auto. }
  destruct Hcreate as (w0 & -> & Hb0 & Hn0 & Hi0).
  unfold bind at 1. unfold print at 1. unfold bind at 1. unfold print at 1.
  unfold bind at 1.
  match goal with
  | |- context [Ingest.pages_loop _ _ [] 0 ?w1] =>
      destruct (ingest_pages_loop_exact (Ingest.extract_text_by_page raw) [] 0 w1)
        as (docs & w' & Hrun & Hid & Hpc & Hall & Hn & Hi & Hb)
  end.
  cbn [app] in Hrun. rewrite Hrun.
  cbn [uuid_count index_exists bulk_calls] in Hid, Hn, Hi, Hb.
  eexists docs, _. split; [reflexivity|].
  cbn [bulk_calls uuid_count index_exists fst snd].
  rewrite Hb, Hb0, Hn, Hi, <- Hn0, Hi0.
  repeat (split; [first [assumption|reflexivity]|]). reflexivity.
Qed.
End IngestDocuments.

Section ProcessorDocuments.
Context `{UnicodeTables} `{Collaborators}.
Variable index_name : str.
Variable manual : str.

Lemma processor_chunks_loop_exact (p : Processor.page) (meta : Processor.metadata) :
  forall (chunks : list str) (documents : list Processor.document)
         (w : world Processor.document),
    exists new w',
      Processor.chunks_loop index_name p meta manual chunks documents w
        = Some (documents ++ new, w') /\
      map Processor.d_id new = map uuid4 (seq (uuid_count w) (length chunks)) /\
      map Processor.content new = chunks /\
      Forall (fun d => Processor.d_page d = Processor.page_no p /\
                       Processor.manual_id d = manual /\
                       Processor.d_index d = index_name /\
                       Processor.embedding d = encode (Processor.content d)) new /\
      uuid_count w' = (uuid_count w + length chunks)%nat /\
      bulk_calls w' = bulk_calls w.
Proof.
  induction chunks as [|chunk chunks IH]; intros documents w.
  - exists [], w. rewrite app_nil_r, Nat.add_0_r. repeat split. constructor.
  - cbn [Processor.chunks_loop]. unfold bind at 1. unfold logged at 1.
    unfold bind at 1. unfold fresh_id at 1.
    match goal with
    | |- context [Processor.chunks_loop _ _ _ _ chunks (documents ++ [?d]) ?w1] =>
        destruct (IH (documents ++ [d]) w1)
          as (new & w' & Hrun & Hid & Hc & Hall & Hn & Hb);
          exists (d :: new), w'
    end.
    rewrite Hrun, <- app_assoc. cbn [uuid_count bulk_calls] in Hid, Hn, Hb.
    split; [reflexivity|].
    split; [cbn [map seq Processor.d_id]; rewrite Hid; reflexivity|].
    split; [cbn [map Processor.content]; rewrite Hc; reflexivity|].
    split; [constructor; [cbn; repeat split|exact Hall]|].
    split; [cbn [length]; lia|exact Hb].
Qed.

Lemma processor_pages_loop_exact :
  forall (pages : list Processor.page) (documents : list Processor.document)
         (w : world Processor.document),
    exists new w',
      Processor.pages_loop index_name manual pages documents w
        = Some (documents ++ new, w') /\
      map Processor.d_id new = map uuid4 (seq (uuid_count w) (length new)) /\
      map (fun d => (Processor.d_page d, Processor.content d)) new
        = processor_page_chunks pages /\
      Forall (fun d => Processor.d_index d = index_name /\
                       Processor.manual_id d = manual /\
                       Processor.embedding d = encode (Processor.content d)) new /\
      uuid_count w' = (uuid_count w + length new)%nat /\
      bulk_calls w' = bulk_calls w.
Proof.
  induction pages as [|p pages IH]; intros documents w.
  - exists [], w. rewrite app_nil_r, Nat.add_0_r. repeat split. constructor.
  - cbn [Processor.pages_loop]. unfold bind at 1. unfold logged at 1.
    unfold bind at 1. unfold logged at 1. unfold bind at 1.
    rewrite chunk_text_default. unfold lift at 1. unfold bind at 1.
    match goal with
    | |- context [Processor.chunks_loop _ _ ?m _ _ documents ?w1] =>
        destruct (processor_chunks_loop_exact p m
                    (default_chunks (Processor.text p)) documents w1)
          as (new1 & w1' & Hrun1 & Hid1 & Hc1 & Hall1 & Hn1 & Hb1)
    end.
    rewrite Hrun1. cbn [uuid_count bulk_calls] in Hid1, Hn1, Hb1.
    destruct (IH (documents ++ new1) w1')
      as (new2 & w' & Hrun2 & Hid2 & Hpc2 & Hall2 & Hn2 & Hb2).
    assert (Hlen1 : length new1 = length (default_chunks (Processor.text p)))
      by (rewrite <- Hc1, length_map; reflexivity).
    exists (new1 ++ new2), w'. rewrite Hrun2, <- app_assoc.
    split; [reflexivity|].
    split; [|split; [|split; [|split]]].
    + rewrite map_app, length_app, seq_app, map_app, Hid1, Hid2, Hn1, Hlen1.
      reflexivity.
    + rewrite map_app, Hpc2. unfold processor_page_chunks. cbn [flat_map]. f_equal.
      rewrite <- Hc1. clear - Hall1.
      induction Hall1 as [|d l (Hpage & _) _ IHl]; [reflexivity|].
      cbn [map]. rewrite Hpage, IHl. reflexivity.
    + apply Forall_app. split; [|exact Hall2].
      eapply Forall_impl; [|exact Hall1].
      intros d (_ & Hm & Hx & He). auto.
    + rewrite Hn2, Hn1, length_app. lia.
    + congruence.
Qed.

(** The documents of a run of [process_manual]. *)
Lemma processor_run_exact (pdf_path : str) (raw : list (option str))
      (w : world Processor.document) :
  exists docs w',
    Processor.process_manual index_name pdf_path manual raw w
      = Some (PyNone, w') /\
    bulk_calls w' = bulk_calls w ++ [docs] /\
    map Processor.d_id docs = map uuid4 (seq (uuid_count w) (length docs)) /\
    map (fun d => (Processor.d_page d, Processor.content d)) docs
      = processor_page_chunks (Processor.parse_pdf raw) /\
    Forall (fun d => Processor.d_index d = index_name /\
                     Processor.manual_id d = manual /\
                     Processor.embedding d = encode (Processor.content d)) docs /\
    uuid_count w' = (uuid_count w + length docs)%nat.
Proof.
  unfold Processor.process_manual. unfold bind at 1. unfold print at 1.
  unfold bind at 1. unfold print at 1. unfold bind at 1.
  match goal with
  | |- context [Processor.pages_loop _ _ _ [] ?w1] =>
      destruct (processor_pages_loop_exact (Processor.parse_pdf raw) [] w1)
        as (docs & w' & Hrun & Hid & Hpc & Hall & Hn & Hb)
  end.
  cbn [app] in Hrun. rewrite Hrun.
  cbn [uuid_count bulk_calls] in Hid, Hn, Hb.
  eexists docs, _. split; [reflexivity|].
  cbn [bulk_calls uuid_count]. rewrite Hb, Hn.
  repeat (split; [first [assumption|reflexivity]|]). reflexivity.
Qed.
End ProcessorDocuments.

Lemma Forall2_of_maps {A B C : Type} (f : A -> C) (g : B -> C)
      (l1 : list A) (l2 : list B) :
  map f l1 = map g l2 -> Forall2 (fun a b => f a = g b) l1 l2.
Proof.
  revert l2. induction l1 as [|a l1 IH]; intros [|b l2] Heq;
    try discriminate; constructor.
  - cbn in Heq. congruence.
  - apply IH. cbn in Heq. congruence.
Qed.


Lemma Forall2_in_impl {A B : Type} (R R' : A -> B -> Prop)
      (l1 : list A) (l2 : list B) :
  Forall2 R l1 l2 ->
  (forall a b, In a l1 -> In b l2 -> R a b -> R' a b) ->
  Forall2 R' l1 l2.
Proof.
  induction 1 as [|a b l1 l2 Hab _ IH]; intros Himpl; constructor.
  - apply Himpl; [left; reflexivity|left; reflexivity|exact Hab].
  - apply IH. intros x y Hx Hy. apply Himpl; right; assumption.
Qed.

(** The default chunking of a text leaves something exactly when the
    text has more than 50 words. *)
Lemma default_chunks_nonempty_iff (text : str) :
  default_chunks text <> [] <-> 50 < len (split text).
Proof.
  destruct (chunk_loop_valid text 800 120 ltac:(lia)) as (rs & Hshape & Hrun).
  destruct (Hrun (S (length (split text))) ltac:(lia)) as [_ Htext].
  unfold default_chunks. rewrite Htext. split.
  - intros Hne.
    destruct (filter (fun c => 50 <? len (split c))
                     (map (render (split text)) rs)) as [|c l] eqn:Hf;
      [congruence|].
    assert (Hc : In c (filter (fun c => 50 <? len (split c))
                              (map (render (split text)) rs)))
      by (rewrite Hf; left; reflexivity).
    apply filter_In in Hc as [Hc Hlong]. apply Z.ltb_lt in Hlong.
    apply in_map_iff in Hc as (r & <- & Hr).
    pose proof (ranges_from_bounds (len (split text)) 800 120 rs
                  ltac:(lia) 0 ltac:(lia) Hshape) as Hb.
    rewrite Forall_forall in Hb. destruct (Hb r Hr) as (Hr1 & Hr2 & _).
    rewrite render_words in Hlong; [lia|apply split_tokens|lia|lia].
  - intros HL.
    pose proof (ranges_from_long (len (split text)) 800 120 rs
                  ltac:(lia) 0 ltac:(lia) ltac:(lia) Hshape) as Hlong.
    rewrite filter_all.
    + destruct rs as [|r rs]; [cbn in Hshape; lia|discriminate].
    + apply Forall_map. eapply Forall_impl; [|exact Hlong].
      intros r (Hr1 & Hr2 & Hr3). apply Z.ltb_lt.
      rewrite render_words; [lia|apply split_tokens|lia|lia].
Qed.

Section Runs.
Context `{UnicodeTables} `{Collaborators}.

Lemma ingest_run_full (manual pdf_path : str) (raw : list (option str))
      (w : world Ingest.document) :
  exists docs w',
    Ingest.index_pdf pdf_path manual raw w = Some (PyNone, w') /\
    bulk_calls w' = bulk_calls w ++ [docs] /\
    map Ingest.d_id docs = map uuid4 (seq (uuid_count w) (length docs)) /\
    map (fun d => (Ingest.d_page d, Ingest.content d)) docs
      = ingest_page_chunks (Ingest.extract_text_by_page raw) /\
    Forall (fun d => Ingest.d_index d = Ingest.INDEX_NAME /\
                     Ingest.embedding d = encode (Ingest.content d)) docs /\
    Forall (fun d => exists p, In p (Ingest.extract_text_by_page raw)
                               /\ ingest_meta_of manual p d) docs /\
    uuid_count w' = (uuid_count w + length docs)%nat /\
    index_exists w' = true.
Proof.
  destruct (ingest_run manual pdf_path raw w)
    as (docs & w' & Hrun & Hb & _ & _ & Hall & _).
  destruct (ingest_run_exact manual pdf_path raw w)
    as (docs' & w'' & Hrun' & Hb' & Hid & Hpc & Hall' & Hn & Hi).
  rewrite Hrun in Hrun'. injection Hrun' as <-.
  rewrite Hb in Hb'. apply app_inv_head in Hb'. injection Hb' as <-.
  exists docs, w'. repeat (split; [assumption|]).
  split; [|split; [|split; assumption]].
  - eapply Forall_impl; [|exact Hall']. intros d (Hx & _ & He). auto.
  - eapply Forall_impl; [|exact Hall]. intros d (p & Hp & Hm & _). eauto.
Qed.

Lemma processor_run_full (index_name manual pdf_path : str)
      (raw : list (option str)) (w : world Processor.document) :
  exists docs w',
    Processor.process_manual index_name pdf_path manual raw w
      = Some (PyNone, w') /\
    bulk_calls w' = bulk_calls w ++ [docs] /\
    map Processor.d_id docs = map uuid4 (seq (uuid_count w) (length docs)) /\
    map (fun d => (Processor.d_page d, Processor.content d)) docs
      = processor_page_chunks (Processor.parse_pdf raw) /\
    Forall (fun d => Processor.d_index d = index_name /\
                     Processor.embedding d = encode (Processor.content d)) docs /\
    Forall (fun d => exists p, In p (Processor.parse_pdf raw)
                               /\ processor_meta_of manual p d) docs /\
    uuid_count w' = (uuid_count w + length docs)%nat.
Proof.
  destruct (processor_run index_name manual pdf_path raw w)
    as (docs & w' & Hrun & Hb & _ & _ & Hall & _).
  destruct (processor_run_exact index_name manual pdf_path raw w)
    as (docs' & w'' & Hrun' & Hb' & Hid & Hpc & Hall' & Hn).
  rewrite Hrun in Hrun'. injection Hrun' as <-.
  rewrite Hb in Hb'. apply app_inv_head in Hb'. injection Hb' as <-.
  exists docs, w'. repeat (split; [assumption|]).
  split; [|split; [|assumption]].
  - eapply Forall_impl; [|exact Hall']. intros d (Hx & _ & He). auto.
  - eapply Forall_impl; [|exact Hall]. intros d (p & Hp & Hm & _). eauto.
Qed.


End Runs.

Lemma NoDup_map_injective {A B : Type} (f : A -> B) (l : list A) :
  (forall a b, f a = f b -> a = b) -> NoDup l -> NoDup (map f l).
Proof.
  intros Hinj. induction 1 as [|x l Hx _ IH]; cbn; constructor; [|exact IH].
  intros Hin. apply in_map_iff in Hin as (y & Hy & Hin).
  apply Hinj in Hy. subst y. contradiction.
Qed.

(** X13: in both scripts the single bulk request holds, page after page
    in reader order and chunk after chunk within a page, one document
    per chunk of the default chunking of the normalised page text; each
    document carries the index name and the manual identifier of the
    run, and its embedding is the encoding of its own content. *)
Theorem X13_documents_follow_pages_and_chunks `{UnicodeTables} `{Collaborators}
  (index_name pdf_path manual : str) (raw : list (option str)) :
  (forall w, exists docs w',
      Processor.process_manual index_name pdf_path manual raw w
        = Some (PyNone, w') /\
      bulk_calls w' = bulk_calls w ++ [docs] /\
      map (fun d => (Processor.d_page d, Processor.content d)) docs
        = processor_page_chunks (Processor.parse_pdf raw) /\
      Forall (fun d => Processor.d_index d = index_name /\
                       Processor.manual_id d = manual /\
                       Processor.embedding d = encode (Processor.content d))
             docs) /\
  (forall w, exists docs w',
      Ingest.index_pdf pdf_path manual raw w = Some (PyNone, w') /\
      bulk_calls w' = bulk_calls w ++ [docs] /\
      map (fun d => (Ingest.d_page d, Ingest.content d)) docs
        = ingest_page_chunks (Ingest.extract_text_by_page raw) /\
      Forall (fun d => Ingest.d_index d = Ingest.INDEX_NAME /\
                       Ingest.manual_id d = manual /\
                       Ingest.embedding d = encode (Ingest.content d))
             docs).
Proof.
  split; intros w.
  - destruct (processor_run_exact index_name manual pdf_path raw w)
      as (docs & w' & Hrun & Hb & _ & Hpc & Hall & _).
    exists docs, w'. auto.
  - destruct (ingest_run_exact manual pdf_path raw w)
      as (docs & w' & Hrun & Hb & _ & Hpc & Hall & _).
    exists docs, w'. auto.
Qed.

(** X14: the k-th document of a run carries the k-th identifier drawn
    during the run; when [uuid4] never repeats an identifier, the
    identifiers of the documents of a run are pairwise distinct. *)
Theorem X14_identifiers_are_fresh `{UnicodeTables} `{Collaborators}
  (index_name pdf_path manual : str) (raw : list (option str)) :
  (forall a b, uuid4 a = uuid4 b -> a = b) ->
  (forall w, exists docs w',
      Processor.process_manual index_name pdf_path manual raw w
        = Some (PyNone, w') /\
      bulk_calls w' = bulk_calls w ++ [docs] /\
      map Processor.d_id docs = map uuid4 (seq (uuid_count w) (length docs)) /\
      uuid_count w' = (uuid_count w + length docs)%nat /\
      NoDup (map Processor.d_id docs)) /\
  (forall w, exists docs w',
      Ingest.index_pdf pdf_path manual raw w = Some (PyNone, w') /\
      bulk_calls w' = bulk_calls w ++ [docs] /\
      map Ingest.d_id docs = map uuid4 (seq (uuid_count w) (length docs)) /\
      uuid_count w' = (uuid_count w + length docs)%nat /\
      NoDup (map Ingest.d_id docs)).
Proof.
  intros Hinj. split; intros w.
  - destruct (processor_run_exact index_name manual pdf_path raw w)
      as (docs & w' & Hrun & Hb & Hid & _ & _ & Hn).
    exists docs, w'. repeat (split; [assumption|]).
    rewrite Hid. apply NoDup_map_injective; [exact Hinj|apply seq_NoDup].
  - destruct (ingest_run_exact manual pdf_path raw w)
      as (docs & w' & Hrun & Hb & Hid & _ & _ & Hn & _).
    exists docs, w'. repeat (split; [assumption|]).
    rewrite Hid. apply NoDup_map_injective; [exact Hinj|apply seq_NoDup].
Qed.

(** X14 with identifiers that never repeat, on three pages. *)
Lemma X14_witness :
  (forall a b, @uuid4 distinct_ids a = @uuid4 distinct_ids b -> a = b) /\
  exists (docs : list (@Ingest.document distinct_ids)) w',
    @Ingest.index_pdf ascii_tables distinct_ids (py "manual.pdf") (py "APU_001")
      three_pages fresh_world = Some (PyNone, w') /\
    bulk_calls w' = [docs] /\
    NoDup (map (@Ingest.d_id distinct_ids) docs).
Proof.
  assert (Hinj : forall a b, @uuid4 distinct_ids a = @uuid4 distinct_ids b -> a = b).
  { intros a b Hab. cbn in Hab. injection Hab as Hab. apply Nat2N.inj, Hab. }
  split; [exact Hinj|].
  destruct (@X14_identifiers_are_fresh ascii_tables distinct_ids
              (py "aviation_manuals") (py "manual.pdf") (py "APU_001")
              three_pages Hinj) as [_ Hingest].
  destruct (Hingest fresh_world) as (docs & w' & Hrun & Hb & _ & _ & Hnd).
  exists docs, w'. repeat split; assumption.
Defined.

Section Determined.
Context `{UnicodeTables} `{Collaborators}.

(** The fields of a document other than its identifier are decided by
    its page and its content. *)
Lemma ingest_fields_determined (manual : str) (raw : list (option str))
      (a b : Ingest.document) :
  (exists p, In p (Ingest.extract_text_by_page raw) /\ ingest_meta_of manual p a) ->
  (exists p, In p (Ingest.extract_text_by_page raw) /\ ingest_meta_of manual p b) ->
  Ingest.d_index a = Ingest.INDEX_NAME /\
  Ingest.embedding a = encode (Ingest.content a) ->
  Ingest.d_index b = Ingest.INDEX_NAME /\
  Ingest.embedding b = encode (Ingest.content b) ->
  (Ingest.d_page a, Ingest.content a) = (Ingest.d_page b, Ingest.content b) ->
  ingest_same_but_id a b.
Proof.
  intros (p & Hp & Hpa & Hsa & Hca & Hna & Hma)
         (q & Hq & Hpb & Hsb & Hcb & Hnb & Hmb) [Hia Hea] [Hib Heb] [= Hpage Hc].
  assert (p = q) as <-.
  { apply (nodup_map_eq _ _ (extract_pages_nodup raw 1)); try assumption.
    congruence. }
  unfold ingest_same_but_id. repeat split; congruence.
Qed.

Lemma processor_fields_determined (index_name manual : str)
      (raw : list (option str)) (a b : Processor.document) :
  (exists p, In p (Processor.parse_pdf raw) /\ processor_meta_of manual p a) ->
  (exists p, In p (Processor.parse_pdf raw) /\ processor_meta_of manual p b) ->
  Processor.d_index a = index_name /\
  Processor.embedding a = encode (Processor.content a) ->
  Processor.d_index b = index_name /\
  Processor.embedding b = encode (Processor.content b) ->
  (Processor.d_page a, Processor.content a)
  = (Processor.d_page b, Processor.content b) ->
  processor_same_but_id a b.
Proof.
  intros (p & Hp & Hpa & Hsa & Hca & Hna & Hma)
         (q & Hq & Hpb & Hsb & Hcb & Hnb & Hmb) [Hia Hea] [Hib Heb] [= Hpage Hc].
  assert (p = q) as <-.
  { apply (nodup_map_eq _ _ (parse_pages_nodup raw 1)); try assumption.
    congruence. }
  unfold processor_same_but_id. repeat split; congruence.
Qed.
End Determined.

(** X15: ingesting the same manual a second time does not update
    anything: the second run sends a second bulk request with as many
    documents, equal one by one to those of the first run in every field
    but the identifier, and with the identifiers drawn next. *)
Theorem X15_reingestion_sends_duplicates `{UnicodeTables} `{Collaborators}
  (index_name pdf_path manual : str) (raw : list (option str)) :
  (forall w, exists docs1 docs2 w1 w2,
      Processor.process_manual index_name pdf_path manual raw w
        = Some (PyNone, w1) /\
      Processor.process_manual index_name pdf_path manual raw w1
        = Some (PyNone, w2) /\
      bulk_calls w2 = bulk_calls w ++ [docs1; docs2] /\
      Forall2 processor_same_but_id docs1 docs2 /\
      map Processor.d_id docs1
        = map uuid4 (seq (uuid_count w) (length docs1)) /\
      map Processor.d_id docs2
        = map uuid4 (seq (uuid_count w + length docs1) (length docs1))) /\
  (forall w, exists docs1 docs2 w1 w2,
      Ingest.index_pdf pdf_path manual raw w = Some (PyNone, w1) /\
      Ingest.index_pdf pdf_path manual raw w1 = Some (PyNone, w2) /\
      bulk_calls w2 = bulk_calls w ++ [docs1; docs2] /\
      Forall2 ingest_same_but_id docs1 docs2 /\
      map Ingest.d_id docs1
        = map uuid4 (seq (uuid_count w) (length docs1)) /\
      map Ingest.d_id docs2
        = map uuid4 (seq (uuid_count w + length docs1) (length docs1))).
Proof.
  split; intros w.
  - destruct (processor_run_full index_name manual pdf_path raw w)
      as (docs1 & w1 & Hrun1 & Hb1 & Hid1 & Hpc1 & Hx1 & Hm1 & Hn1).
    destruct (processor_run_full index_name manual pdf_path raw w1)
      as (docs2 & w2 & Hrun2 & Hb2 & Hid2 & Hpc2 & Hx2 & Hm2 & Hn2).
    assert (Hsame : Forall2 processor_same_but_id docs1 docs2).
    { rewrite <- Hpc2 in Hpc1. apply Forall2_of_maps in Hpc1.
      eapply Forall2_in_impl; [exact Hpc1|].
      intros a b Ha Hb Hab. rewrite Forall_forall in Hx1, Hx2, Hm1, Hm2.
      apply (processor_fields_determined index_name manual raw); auto. }
    exists docs1, docs2, w1, w2. repeat (split; [assumption|]).
    split; [rewrite Hb2, Hb1, <- app_assoc; reflexivity|].
    split; [exact Hsame|]. split; [exact Hid1|].
    rewrite Hid2, Hn1, (Forall2_length Hsame). reflexivity.
  - destruct (ingest_run_full manual pdf_path raw w)
      as (docs1 & w1 & Hrun1 & Hb1 & Hid1 & Hpc1 & Hx1 & Hm1 & Hn1 & _).
    destruct (ingest_run_full manual pdf_path raw w1)
      as (docs2 & w2 & Hrun2 & Hb2 & Hid2 & Hpc2 & Hx2 & Hm2 & Hn2 & _).
    assert (Hsame : Forall2 ingest_same_but_id docs1 docs2).
    { rewrite <- Hpc2 in Hpc1. apply Forall2_of_maps in Hpc1.
      eapply Forall2_in_impl; [exact Hpc1|].
      intros a b Ha Hb Hab. rewrite Forall_forall in Hx1, Hx2, Hm1, Hm2.
      apply (ingest_fields_determined manual raw); auto. }
    exists docs1, docs2, w1, w2. repeat (split; [assumption|]).
    split; [rewrite Hb2, Hb1, <- app_assoc; reflexivity|].
    split; [exact Hsame|]. split; [exact Hid1|].
    rewrite Hid2, Hn1, (Forall2_length Hsame). reflexivity.
Qed.

Lemma page_has_document_iff {P D : Type} (pn : P -> Z) (tx : P -> str)
      (dp : D -> Z) (dc : D -> str) (pages : list P) (docs : list D) :
  NoDup (map pn pages) ->
  map (fun d => (dp d, dc d)) docs
  = flat_map (fun p => map (pair (pn p)) (default_chunks (tx p))) pages ->
  forall p, In p pages ->
    ((exists d, In d docs /\ dp d = pn p) <-> 50 < len (split (tx p))).
Proof.
  intros Hnd Hmap p Hp. rewrite <- default_chunks_nonempty_iff. split.
  - intros (d & Hd & Hpage).
    assert (Hin : In (dp d, dc d) (map (fun d => (dp d, dc d)) docs))
      by (apply in_map_iff; exists d; auto).
    rewrite Hmap in Hin. apply in_flat_map in Hin as (q & Hq & Hin).
    apply in_map_iff in Hin as (c & [= Hn _] & Hc).
    assert (q = p) as ->
        by (apply (nodup_map_eq _ _ Hnd); [assumption|assumption|congruence]).
    intros Hnil. rewrite Hnil in Hc. destruct Hc.
  - intros Hne. destruct (default_chunks (tx p)) as [|c cs] eqn:Hchunks;
      [congruence|].
    assert (Hin : In (pn p, c)
                     (flat_map (fun p => map (pair (pn p)) (default_chunks (tx p)))
                               pages)).
    { apply in_flat_map. exists p. split; [exact Hp|].
      rewrite Hchunks. left. reflexivity. }
    rewrite <- Hmap in Hin. apply in_map_iff in Hin as (d & [= Hn _] & Hd).
    exists d. auto.
Qed.

(** X16: in a run of either script a kept page gets at least one
    document exactly when its normalised text has more than 50 words;
    shorter pages are dropped without a trace in the bulk request. *)
Theorem X16_page_is_indexed_iff_more_than_50_words
  `{UnicodeTables} `{Collaborators}
  (index_name pdf_path manual : str) (raw : list (option str)) :
  (forall w, exists docs w',
      Processor.process_manual index_name pdf_path manual raw w
        = Some (PyNone, w') /\
      bulk_calls w' = bulk_calls w ++ [docs] /\
      forall p, In p (Processor.parse_pdf raw) ->
        ((exists d, In d docs /\ Processor.d_page d = Processor.page_no p)
         <-> 50 < len (split (Processor.text p)))) /\
  (forall w, exists docs w',
      Ingest.index_pdf pdf_path manual raw w = Some (PyNone, w') /\
      bulk_calls w' = bulk_calls w ++ [docs] /\
      forall p, In p (Ingest.extract_text_by_page raw) ->
        ((exists d, In d docs /\ Ingest.d_page d = Ingest.page_no p)
         <-> 50 < len (split (Ingest.text p)))).
Proof.
  split; intros w.
  - destruct (processor_run_exact index_name manual pdf_path raw w)
      as (docs & w' & Hrun & Hb & _ & Hpc & _).
    exists docs, w'. repeat (split; [assumption|]).
    apply (page_has_document_iff Processor.page_no Processor.text
             Processor.d_page Processor.content);
      [apply parse_pages_nodup|exact Hpc].
  - destruct (ingest_run_exact manual pdf_path raw w)
      as (docs & w' & Hrun & Hb & _ & Hpc & _).
    exists docs, w'. repeat (split; [assumption|]).
    apply (page_has_document_iff Ingest.page_no Ingest.text
             Ingest.d_page Ingest.content);
      [apply extract_pages_nodup|exact Hpc].
Qed.



Section KeptPages.
Context `{UnicodeTables}.



End KeptPages.


(** ** Overlap and coverage, in words *)

Lemma overlap_words (words : list str) (M O : Z) (r1 r2 : Z * Z) :
  0 <= O < M -> 0 <= fst r1 ->
  snd r1 = fst r1 + M -> snd r1 < len words ->
  fst r2 = snd r1 - O -> snd r2 = Z.min (fst r2 + M) (len words) ->
  skipn (Z.to_nat (M - O)) (py_slice words (fst r1) (snd r1))
  = firstn (Z.to_nat O) (py_slice words (fst r2) (snd r2)).
Proof.
  intros HOM Hs1 He1 HL Hs2 He2.
  rewrite !py_slice_inside by lia.
  rewrite skipn_firstn_comm, skipn_skipn, firstn_firstn.
  replace (Z.to_nat (snd r1 - fst r1) - Z.to_nat (M - O))%nat
    with (Z.to_nat O) by lia.
  replace (Z.to_nat (M - O) + Z.to_nat (fst r1))%nat
    with (Z.to_nat (fst r2)) by lia.
  replace (Nat.min (Z.to_nat O) (Z.to_nat (snd r2 - fst r2)))
    with (Z.to_nat O) by lia.
  reflexivity.
Qed.

(** X19: for [0 <= O < M], any two consecutive generated chunks overlap
    in their words: the first has exactly [M] words, and its last [O]
    words are the first [O] words of the second. *)
Theorem X19_consecutive_chunks_share_their_words (text : str) (M O : Z) :
  0 <= O < M ->
  exists chunks,
    (forall fuel, (length (split text) < fuel)%nat ->
       Processor.chunk_loop fuel (split text) M O 0 [] = Some chunks /\
       Ingest.chunk_loop fuel (split text) M O 0 [] = Some chunks) /\
    (forall i c1 c2,
       nth_error chunks i = Some c1 -> nth_error chunks (S i) = Some c2 ->
       len (split c1) = M /\
       skipn (Z.to_nat (M - O)) (split c1) = firstn (Z.to_nat O) (split c2)).
Proof.
  intros HOM.
  destruct (chunk_loop_valid text M O ltac:(lia)) as (rs & Hshape & Hrun).
  exists (map (render (split text)) rs). split.
  - intros fuel Hfuel. destruct (Hrun fuel Hfuel) as [Hloop _].
    split; exact Hloop.
  - intros i c1 c2 H1 H2. rewrite nth_error_map in H1, H2.
    destruct (nth_error rs i) as [r1|] eqn:Hr1; [|discriminate].
    destruct (nth_error rs (S i)) as [r2|] eqn:Hr2; [|discriminate].
    injection H1 as <-. injection H2 as <-.
    destruct (ranges_from_next (len (split text)) M O rs 0 Hshape i r1 r2 Hr1 Hr2)
      as (He1 & Hlt & Hs2 & Hs2L & He2).
    pose proof (ranges_from_bounds (len (split text)) M O rs HOM 0
                  ltac:(lia) Hshape) as Hb.
    rewrite Forall_forall in Hb.
    destruct (Hb r1 (nth_error_In _ _ Hr1)) as (Hb1 & _).
    rewrite !split_render by apply split_tokens. split.
    + rewrite slice_length by lia. lia.
    + apply overlap_words; assumption || lia.
Qed.

(** X19 at five words, windows of three words, overlap two. *)
Lemma X19_witness :
  0 <= 2 < 3 /\
  exists chunks,
    Processor.chunk_loop 6 (split (py "a b c d e")) 3 2 0 [] = Some chunks.
Proof.
  split; [lia|].
  destruct (X19_consecutive_chunks_share_their_words (py "a b c d e") 3 2
              ltac:(lia)) as (chunks & Hrun & _).
  exists chunks. apply Hrun. cbn. lia.
Defined.

(** Every word of a text of more than 50 words lies in one of its
    default chunks. *)
Lemma default_chunks_cover (text : str) (i : nat) (w : str) :
  50 < len (split text) -> nth_error (split text) i = Some w ->
  exists c, In c (default_chunks text) /\ In w (split c).
Proof.
  intros HL Hw.
  destruct (chunk_loop_valid text 800 120 ltac:(lia)) as (rs & Hshape & Hrun).
  destruct (Hrun (S (length (split text))) ltac:(lia)) as [_ Htext].
  unfold default_chunks. rewrite Htext.
  pose proof (ranges_from_long (len (split text)) 800 120 rs
                ltac:(lia) 0 ltac:(lia) ltac:(lia) Hshape) as Hlong.
  rewrite filter_all.
  - assert (Hi : (i < length (split text))%nat)
      by (apply nth_error_Some; congruence).
    destruct (ranges_from_cover (len (split text)) 800 120 rs ltac:(lia) 0
                Hshape (Z.of_nat i)) as (r & Hr & Hir); [unfold len; lia|].
    rewrite Forall_forall in Hlong. destruct (Hlong r Hr) as (Hr1 & Hr2 & _).
    exists (render (split text) r). split; [apply in_map, Hr|].
    rewrite split_render by apply split_tokens.
    apply (slice_member _ i); [exact Hw|lia|lia].
  - apply Forall_map. eapply Forall_impl; [|exact Hlong].
    intros r (Hr1 & Hr2 & Hr3). apply Z.ltb_lt.
    rewrite render_words; [lia|apply split_tokens|lia|lia].
Qed.

Lemma page_words_indexed {P D : Type} (pn : P -> Z) (tx : P -> str)
      (dp : D -> Z) (dc : D -> str) (pages : list P) (docs : list D) :
  map (fun d => (dp d, dc d)) docs
  = flat_map (fun p => map (pair (pn p)) (default_chunks (tx p))) pages ->
  forall p i w, In p pages -> 50 < len (split (tx p)) ->
    nth_error (split (tx p)) i = Some w ->
    exists d, In d docs /\ dp d = pn p /\ In w (split (dc d)).
Proof.
  intros Hmap p i w Hp HL Hw.
  destruct (default_chunks_cover (tx p) i w HL Hw) as (c & Hc & Hwc).
  assert (Hin : In (pn p, c)
                   (flat_map (fun p => map (pair (pn p)) (default_chunks (tx p)))
                             pages)).
  { apply in_flat_map. exists p. split; [exact Hp|]. apply in_map, Hc. }
  rewrite <- Hmap in Hin. apply in_map_iff in Hin as (d & [= Hn Hcd] & Hd).
  exists d. rewrite Hcd. auto.
Qed.

(** X20: in a run of either script, every word of a kept page of more
    than 50 words occurs in the content of a document of that page:
    nothing of such a page is left out of the index. *)
Theorem X20_every_word_of_a_long_page_is_indexed
  `{UnicodeTables} `{Collaborators}
  (index_name pdf_path manual : str) (raw : list (option str)) :
  (forall w, exists docs w',
      Processor.process_manual index_name pdf_path manual raw w
        = Some (PyNone, w') /\
      bulk_calls w' = bulk_calls w ++ [docs] /\
      forall p i word, In p (Processor.parse_pdf raw) ->
        50 < len (split (Processor.text p)) ->
        nth_error (split (Processor.text p)) i = Some word ->
        exists d, In d docs /\ Processor.d_page d = Processor.page_no p /\
                  In word (split (Processor.content d))) /\
  (forall w, exists docs w',
      Ingest.index_pdf pdf_path manual raw w = Some (PyNone, w') /\
      bulk_calls w' = bulk_calls w ++ [docs] /\
      forall p i word, In p (Ingest.extract_text_by_page raw) ->
        50 < len (split (Ingest.text p)) ->
        nth_error (split (Ingest.text p)) i = Some word ->
        exists d, In d docs /\ Ingest.d_page d = Ingest.page_no p /\
                  In word (split (Ingest.content d))).
Proof.
  split; intros w.
  - destruct (processor_run_exact index_name manual pdf_path raw w)
      as (docs & w' & Hrun & Hb & _ & Hpc & _).
    exists docs, w'. repeat (split; [assumption|]).
    exact (page_words_indexed Processor.page_no Processor.text
             Processor.d_page Processor.content _ _ Hpc).
  - destruct (ingest_run_exact manual pdf_path raw w)
      as (docs & w' & Hrun & Hb & _ & Hpc & _).
    exists docs, w'. repeat (split; [assumption|]).
    exact (page_words_indexed Ingest.page_no Ingest.text
             Ingest.d_page Ingest.content _ _ Hpc).
Qed.
